(** * Capture, record, persist, query: the recording pipeline of the streaming app

    A shallow embedding of the two components that carry the pipeline:

    - [Broadcaster] (Broadcaster.tsx): camera acquisition, the MediaRecorder
      run ([startStreaming], [stopStreaming]) and [saveRecording], which
      downloads the artifact and writes a record to [localStorage];
    - [VideoGallery] (VideoGallery.tsx): [loadSavedVideos], [deleteVideo] and
      the [filteredAndSortedVideos] query.

    Handlers are written in a small state-and-exception monad over an explicit
    world (React state cells, refs, and the part of the browser the handlers
    touch).  Browser built-ins the code calls are modelled by what the
    handlers can observe of them; each such model says so where it is
    defined. *)

From Stdlib Require Import ZArith List Lia.
From Stdlib Require Import Strings.Ascii Strings.Byte.
From Stdlib Require String.
From Stdlib Require Import Numbers.DecimalString Numbers.DecimalZ.
From Stdlib Require Import Sorting.Sorted Sorting.Permutation.
From stdpp Require Import base option list strings gmap.

Local Open Scope Z_scope.

#[local] Set Warnings "-register-all".

(** ** JSON values and [localStorage] *)

Inductive json : Type :=
| JNull
| JBool (b : bool)
| JNum (n : Z)
| JStr (s : string)
| JArr (items : list json)
| JObj (props : list (string * json)).

(** Property read [o.k]; [None] is JavaScript's [undefined]. *)
Fixpoint assoc (k : string) (ps : list (string * json)) : option json :=
  match ps with
  | [] => None
  | (k', v) :: ps' => if String.eqb k k' then Some v else assoc k ps'
  end.

Definition get_prop (k : string) (o : json) : option json :=
  match o with
  | JObj ps => assoc k ps
  | _ => None
  end.

Definition prop_names (o : json) : list string :=
  match o with
  | JObj ps => map fst ps
  | _ => []
  end.

(** [localStorage] maps a key to a stored text.  Every text the two
    components store is the output of [JSON.stringify], and every read goes
    through [JSON.parse]; the store is modelled by the value a text parses
    to, so that [JSON.parse (JSON.stringify v)] is [v]. *)
Definition getItem (k : string) (ls : gmap string json) : option json := ls !! k.
Definition setItem (k : string) (v : json) (ls : gmap string json) : gmap string json :=
  <[k := v]> ls.

(** [JSON.parse(localStorage.getItem(k) || '[]')] *)
Definition getItem_or_empty (k : string) (ls : gmap string json) : json :=
  default (JArr []) (getItem k ls).

(** ** Blobs *)

Definition Blob : Type := list byte.
Definition size (b : Blob) : Z := Z.of_nat (length b).
(** [new Blob(parts)]: the parts, concatenated in order. *)
Definition new_Blob (parts : list Blob) : Blob := concat parts.

(** ** Strings *)

Fixpoint map_chars (f : ascii -> ascii) (s : string) : string :=
  match s with
  | EmptyString => EmptyString
  | String c s' => String (f c) (map_chars f s')
  end.

(** [s.replace(/[:.]/g, '-')] *)
Definition dash (c : ascii) : ascii :=
  if (Ascii.eqb c ":" || Ascii.eqb c ".")%bool then "-"%char else c.
Definition replace_colon_dot (s : string) : string := map_chars dash s.

(** ** Broadcaster *)

Module Broadcaster.

Inductive ReadyState := live | ended.

Record MediaStreamTrack := mkTrack {
  kind : string;
  enabled : bool;
  readyState : ReadyState
}.

Definition MediaStream : Type := list MediaStreamTrack.

(** [track.stop()] *)
Definition stop_track (t : MediaStreamTrack) : MediaStreamTrack :=
  mkTrack (kind t) (enabled t) ended.

Definition is_live (t : MediaStreamTrack) : bool :=
  match readyState t with live => true | ended => false end.

(** [stream.active]: some track has not ended. *)
Definition active (s : MediaStream) : bool := existsb is_live s.

Inductive RecordingState := inactive | recording | paused.

Definition is_inactive (s : RecordingState) : bool :=
  match s with inactive => true | _ => false end.

(** A MediaRecorder object.  Its [ondataavailable] and [onstop] handlers are
    the arrow functions [startStreaming] assigns; [onstop] calls the
    [saveRecording] of the render in which [startStreaming] ran, and that
    [saveRecording] reads the [recordingDuration] of that same render.  The
    value is kept with the recorder as [onstop_recordingDuration]. *)
Record MediaRecorder := mkRecorder {
  state : RecordingState;
  onstop_recordingDuration : Z
}.

(** Tasks the browser has queued for the event loop. *)
Inductive Task :=
| fire_dataavailable (rid : nat) (data : Blob)
| fire_stop (rid : nat).

Inductive Exception :=
| NotSupportedError
| InvalidStateError
| NotAllowedError
| TypeError.

Inductive LogEntry :=
| console_error (msg : string) (e : Exception)
| alert (msg : string)
| uncaught (e : Exception).

(** [useState] cells. *)
Record Hooks := mkHooks {
  isStreaming : bool;
  isRecording : bool;
  recordingDuration : Z
}.

(** [useRef] cells. *)
Record Refs := mkRefs {
  streamRef : option MediaStream;
  mediaRecorderRef : option nat;
  recordedChunksRef : list Blob;
  recordingIntervalRef : option nat
}.

(** The part of the browser the handlers act on: the MediaRecorder objects
    ever constructed (a recorder is named by its index), the live interval
    timers of the duration counter, the task queue, [localStorage], the files handed to the user by
    [a.click()], and what was reported. *)
Record Browser := mkBrowser {
  recorders : list MediaRecorder;
  intervals : gset nat;
  timer_seq : nat;
  tasks : list Task;
  localStorage : gmap string json;
  downloads : list (string * Blob);
  console : list LogEntry
}.

Record World := mkWorld {
  streamId : string;
  hooks : Hooks;
  refs : Refs;
  browser : Browser
}.

Definition on_hooks (f : Hooks -> Hooks) (w : World) : World :=
  mkWorld (streamId w) (f (hooks w)) (refs w) (browser w).
Definition on_refs (f : Refs -> Refs) (w : World) : World :=
  mkWorld (streamId w) (hooks w) (f (refs w)) (browser w).
Definition on_browser (f : Browser -> Browser) (w : World) : World :=
  mkWorld (streamId w) (hooks w) (refs w) (f (browser w)).

Definition setIsStreaming (v : bool) : World -> World :=
  on_hooks (fun h => mkHooks v (isRecording h) (recordingDuration h)).
Definition setIsRecording (v : bool) : World -> World :=
  on_hooks (fun h => mkHooks (isStreaming h) v (recordingDuration h)).
(** [setRecordingDuration(f)], the functional form; [setRecordingDuration(0)]
    is [setRecordingDuration (fun _ => 0)]. *)
Definition setRecordingDuration (f : Z -> Z) : World -> World :=
  on_hooks (fun h => mkHooks (isStreaming h) (isRecording h) (f (recordingDuration h))).

Definition set_streamRef (v : option MediaStream) : World -> World :=
  on_refs (fun r => mkRefs v (mediaRecorderRef r) (recordedChunksRef r) (recordingIntervalRef r)).
Definition set_mediaRecorderRef (v : option nat) : World -> World :=
  on_refs (fun r => mkRefs (streamRef r) v (recordedChunksRef r) (recordingIntervalRef r)).
Definition set_recordedChunksRef (v : list Blob) : World -> World :=
  on_refs (fun r => mkRefs (streamRef r) (mediaRecorderRef r) v (recordingIntervalRef r)).
Definition set_recordingIntervalRef (v : option nat) : World -> World :=
  on_refs (fun r => mkRefs (streamRef r) (mediaRecorderRef r) (recordedChunksRef r) v).

Definition set_recorders (v : list MediaRecorder) : World -> World :=
  on_browser (fun b => mkBrowser v (intervals b) (timer_seq b) (tasks b)
                                 (localStorage b) (downloads b) (console b)).
Definition set_timers (live : gset nat) (next : nat) : World -> World :=
  on_browser (fun b => mkBrowser (recorders b) live next (tasks b)
                                 (localStorage b) (downloads b) (console b)).
Definition set_tasks (v : list Task) : World -> World :=
  on_browser (fun b => mkBrowser (recorders b) (intervals b) (timer_seq b) v
                                 (localStorage b) (downloads b) (console b)).
Definition set_localStorage (v : gmap string json) : World -> World :=
  on_browser (fun b => mkBrowser (recorders b) (intervals b) (timer_seq b) (tasks b)
                                 v (downloads b) (console b)).
Definition set_downloads (v : list (string * Blob)) : World -> World :=
  on_browser (fun b => mkBrowser (recorders b) (intervals b) (timer_seq b) (tasks b)
                                 (localStorage b) v (console b)).
Definition set_console (v : list LogEntry) : World -> World :=
  on_browser (fun b => mkBrowser (recorders b) (intervals b) (timer_seq b) (tasks b)
                                 (localStorage b) (downloads b) v).

(** *** The handler monad: world passing with exceptions *)

Inductive Completion (A : Type) : Type :=
| Normal (a : A) (w : World)
| Throw (e : Exception) (w : World).
Arguments Normal {A} a w.
Arguments Throw {A} e w.

Definition M (A : Type) : Type := World -> Completion A.

#[export] Instance M_ret : MRet M := fun A a w => Normal a w.
#[export] Instance M_bind : MBind M := fun A B f c w =>
  match c w with
  | Normal a w' => f a w'
  | Throw e w' => Throw e w'
  end.

Definition gets {A} (f : World -> A) : M A := fun w => Normal (f w) w.
Definition modify (f : World -> World) : M unit := fun w => Normal tt (f w).
Definition throw {A} (e : Exception) : M A := fun w => Throw e w.

(** [try { body } catch (error) { handler(error) }] *)
Definition try_catch (body : M unit) (handler : Exception -> M unit) : M unit :=
  fun w =>
    match body w with
    | Normal a w' => Normal a w'
    | Throw e w' => handler e w'
    end.

Definition world_of {A} (c : Completion A) : World :=
  match c with Normal _ w => w | Throw _ w => w end.

Definition returns {A} (c : Completion A) : Prop :=
  match c with Normal _ _ => True | Throw _ _ => False end.

Definition log (l : LogEntry) : M unit :=
  modify (fun w => set_console (console (browser w) ++ [l]) w).

(** *** Browser calls *)

(** [new MediaRecorder(stream, { mimeType })] throws NotSupportedError when
    the browser cannot record the requested type; whether it can is the
    browser's, hence an input.  The handlers assigned right after
    construction are fixed, so they are installed here. *)
Definition new_MediaRecorder (mimeTypeSupported : bool) (captured : Z) : M nat :=
  if mimeTypeSupported then
    rs ← gets (fun w => recorders (browser w));
    modify (set_recorders (rs ++ [mkRecorder inactive captured]));;
    mret (length rs)
  else throw NotSupportedError.

Definition recorder_state (rid : nat) : M RecordingState :=
  rs ← gets (fun w => recorders (browser w));
  mret (default inactive (state <$> rs !! rid)).

Definition set_recorder_state (rid : nat) (s : RecordingState) : M unit :=
  modify (fun w =>
    set_recorders (alter (fun r => mkRecorder s (onstop_recordingDuration r)) rid
                         (recorders (browser w))) w).

(** [recorder.start(timeslice)]: InvalidStateError unless the recorder is
    inactive, NotSupportedError when the stream is inactive. *)
Definition MediaRecorder_start (rid : nat) (stream : MediaStream) : M unit :=
  s ← recorder_state rid;
  if negb (is_inactive s) then throw InvalidStateError
  else if negb (active stream) then throw NotSupportedError
  else set_recorder_state rid recording.

(** [recorder.stop()]: InvalidStateError when the recorder is inactive (the
    stricter of the behaviours browsers have shipped; later ones return
    silently); otherwise the recorder becomes inactive and the browser queues
    a task that fires [dataavailable] with the data gathered since the last
    chunk and then [stop]. *)
Definition MediaRecorder_stop (rid : nat) (inflight : Blob) : M unit :=
  s ← recorder_state rid;
  if is_inactive s then throw InvalidStateError
  else
    set_recorder_state rid inactive;;
    modify (fun w =>
      set_tasks (tasks (browser w) ++ [fire_dataavailable rid inflight; fire_stop rid]) w).

Definition setInterval : M nat :=
  modify (fun w =>
    let b := browser w in
    set_timers ({[timer_seq b]} ∪ intervals b) (S (timer_seq b)) w);;
  gets (fun w => Nat.pred (timer_seq (browser w))).

(** [clearInterval(id)]; clearing a timer that is not live does nothing. *)
Definition clearInterval (tid : nat) : M unit :=
  modify (fun w =>
    let b := browser w in set_timers (intervals b ∖ {[tid]}) (timer_seq b) w).

(** What [saveRecording] reads from the browser: the two [new Date()]
    readings as ISO strings, [Date.now()], and the URL minted by
    [URL.createObjectURL]. *)
Record SaveEnv := mkSaveEnv {
  iso_for_filename : string;
  Date_now : Z;
  iso_for_date : string;
  object_url : string
}.

(** *** The component's functions *)

(** [startCamera]; [getUserMedia] is the browser's, its outcome an input. *)
Definition startCamera (granted : option MediaStream) : M unit :=
  match granted with
  | Some stream => modify (set_streamRef (Some stream))
  | None =>
      log (console_error "Error accessing camera:" NotAllowedError);;
      log (alert "Unable to access camera. Please check permissions.")
  end.

(** [mediaRecorder.ondataavailable] *)
Definition ondataavailable (data : Blob) : M unit :=
  if 0 <? size data then
    modify (fun w => set_recordedChunksRef (recordedChunksRef (refs w) ++ [data]) w)
  else mret tt.

Definition recording_filename (sid timestamp : string) : string :=
  "stream-" +:+ sid +:+ "-" +:+ timestamp +:+ ".webm".

(** The object literal pushed by [saveRecording]. *)
Definition recording_record (sid : string) (recordingDuration : Z) (env : SaveEnv)
  : json :=
  JObj [ ("id", JNum (Date_now env));
         ("streamId", JStr sid);
         ("filename",
          JStr (recording_filename sid (replace_colon_dot (iso_for_filename env))));
         ("date", JStr (iso_for_date env));
         ("duration", JNum recordingDuration);
         ("url", JStr (object_url env)) ].

(** [saveRecording], in the render whose [recordingDuration] is the
    argument. *)
Definition saveRecording (recordingDuration : Z) (env : SaveEnv) : M unit :=
  chunks ← gets (fun w => recordedChunksRef (refs w));
  if Nat.eqb (length chunks) 0 then mret tt
  else
    let blob := new_Blob chunks in
    sid ← gets streamId;
    let timestamp := replace_colon_dot (iso_for_filename env) in
    modify (fun w =>
      set_downloads (downloads (browser w) ++ [(recording_filename sid timestamp, blob)]) w);;
    (* Save to localStorage for gallery *)
    recordings ← gets (fun w => getItem_or_empty "streamRecordings" (localStorage (browser w)));
    match recordings with
    | JArr items =>
        modify (fun w =>
          set_localStorage
            (setItem "streamRecordings"
                     (JArr (items ++ [recording_record sid recordingDuration env]))
                     (localStorage (browser w))) w)
    | _ => throw TypeError
    end.

(** [mediaRecorder.onstop] of recorder [rid]. *)
Definition onstop (rid : nat) (env : SaveEnv) : M unit :=
  rs ← gets (fun w => recorders (browser w));
  match rs !! rid with
  | Some r => saveRecording (onstop_recordingDuration r) env
  | None => mret tt
  end.

(** [startStreaming].  [rendered] is the [recordingDuration] of the render
    whose handlers are running: the state setters act on the next render, and
    the [onstop] handler installed here keeps calling this render's
    [saveRecording].  The simulated viewer count (a random number on a second
    timer) is display only and left out. *)
Definition startStreaming (mimeTypeSupported : bool) : M unit :=
  cur ← gets (fun w => streamRef (refs w));
  match cur with
  | None => mret tt
  | Some stream =>
      rendered ← gets (fun w => recordingDuration (hooks w));
      modify (setIsStreaming true);;
      modify (setIsRecording true);;
      modify (setRecordingDuration (fun _ => 0));;
      try_catch
        (rid ← new_MediaRecorder mimeTypeSupported rendered;
         modify (set_mediaRecorderRef (Some rid));;
         modify (set_recordedChunksRef []);;
         MediaRecorder_start rid stream;;
         tid ← setInterval;
         modify (set_recordingIntervalRef (Some tid)))
        (fun e => log (console_error "Error starting recording:" e))
  end.

(** [stopStreaming]; [inflight] is the data the recorder holds when
    [stop()] is called. *)
Definition stopStreaming (inflight : Blob) : M unit :=
  modify (setIsStreaming false);;
  modify (setIsRecording false);;
  mr ← gets (fun w => mediaRecorderRef (refs w));
  match mr with
  | Some rid =>
      s ← recorder_state rid;
      if negb (is_inactive s) then MediaRecorder_stop rid inflight else mret tt
  | None => mret tt
  end;;
  iv ← gets (fun w => recordingIntervalRef (refs w));
  match iv with
  | Some tid => clearInterval tid
  | None => mret tt
  end;;
  cur ← gets (fun w => streamRef (refs w));
  match cur with
  | Some stream => modify (set_streamRef (Some (map stop_track stream)))
  | None => mret tt
  end.

(** The callback of the duration timer [tid]; a cleared timer does not fire. *)
Definition interval_fired (tid : nat) : M unit :=
  live ← gets (fun w => intervals (browser w));
  if decide (tid ∈ live) then modify (setRecordingDuration (fun prev => prev + 1))
  else mret tt.

(** *** The event loop *)

(** One queued task.  An exception that escapes a handler is reported by the
    browser and the loop goes on. *)
Definition run_task (env : SaveEnv) (t : Task) : M unit :=
  try_catch
    match t with
    | fire_dataavailable _ data => ondataavailable data
    | fire_stop rid => onstop rid env
    end
    (fun e => log (uncaught e)).

Fixpoint run_tasks (env : SaveEnv) (ts : list Task) : M unit :=
  match ts with
  | [] => mret tt
  | t :: ts' => run_task env t;; run_tasks env ts'
  end.

(** Run everything that is queued. *)
Definition drain (env : SaveEnv) : M unit :=
  ts ← gets (fun w => tasks (browser w));
  modify (set_tasks []);;
  run_tasks env ts.

(** What happens between start and stop of one run: the duration timer
    fires, or the recorder delivers a time-slice chunk. *)
Inductive RunEvent :=
| tick
| chunk (data : Blob).

Definition step (ev : RunEvent) : M unit :=
  match ev with
  | tick =>
      iv ← gets (fun w => recordingIntervalRef (refs w));
      match iv with
      | Some tid => interval_fired tid
      | None => mret tt
      end
  | chunk data => ondataavailable data
  end.

Fixpoint steps (evs : list RunEvent) : M unit :=
  match evs with
  | [] => mret tt
  | ev :: evs' => step ev;; steps evs'
  end.

(** One whole run: start, the events of the run, stop, and the tasks that
    [stop()] queued. *)
Definition run (mimeTypeSupported : bool) (evs : list RunEvent)
    (inflight : Blob) (env : SaveEnv) : M unit :=
  startStreaming mimeTypeSupported;;
  steps evs;;
  stopStreaming inflight;;
  drain env.

(** The component as mounted for stream [sid], before [startCamera]. *)
Definition mounted (sid : string) (ls : gmap string json) : World :=
  mkWorld sid (mkHooks false false 0) (mkRefs None None [] None)
          (mkBrowser [] ∅ 0 [] ls [] []).

End Broadcaster.

(** ** VideoGallery *)

(** Strings are the UTF-8 bytes of the text: a character of the ASCII range
    is one byte below 128, every other character a sequence of bytes from
    128 on. *)
Fixpoint is_ascii (s : string) : bool :=
  match s with
  | EmptyString => true
  | String c s' => (N_of_ascii c <? 128)%N && is_ascii s'
  end.

(** What [toLowerCase] does to a character of the ASCII range: the letters
    A to Z become a to z, every other character is left as it is. *)
Definition lower (c : ascii) : ascii :=
  let n := N_of_ascii c in
  if ((65 <=? n) && (n <=? 90))%N then ascii_of_N (n + 32) else c.

(** [s.startsWith(p)] *)
Fixpoint startsWith (p s : string) : bool :=
  match p, s with
  | EmptyString, _ => true
  | String _ _, EmptyString => false
  | String a p', String b s' => Ascii.eqb a b && startsWith p' s'
  end.

(** [s.includes(t)]: [t] occurs in [s] at some position. *)
Fixpoint includes (s t : string) : bool :=
  startsWith t s ||
  match s with
  | EmptyString => false
  | String _ s' => includes s' t
  end.

(** [array.sort(compareFn)].  ECMAScript requires the sort to be stable, and
    for a comparator that orders the elements consistently the result is then
    determined: the elements in comparator order, equal ones in their
    original order.  It is computed here by insertion from the right.  (For
    a comparator that is not consistent, as the date comparator is on
    invalid dates, the language leaves the order to the engine.) *)
Section Sort.
Context {A : Type} (compareFn : A -> A -> Z).

Fixpoint insert_sorted (x : A) (l : list A) : list A :=
  match l with
  | [] => [x]
  | y :: l' =>
      if 0 <? compareFn x y then y :: insert_sorted x l' else x :: y :: l'
  end.

Definition sort (l : list A) : list A := foldr insert_sorted [] l.
End Sort.

Module VideoGallery.

Record SavedVideo := mkVideo {
  id : string;
  filename : string;
  url : string;
  timestamp : string;
  duration : Z;
  streamId : string
}.

Inductive SortKey := sort_date | sort_duration | sort_name.
Inductive TimeFilter := filter_all | filter_today | filter_week | filter_month.

(** [JSON.stringify] of a [SavedVideo], and the reading of a stored value at
    the declared type [SavedVideo]: an object that has the six properties of
    the interface at their declared types. *)
Definition encode_video (v : SavedVideo) : json :=
  JObj [ ("id", JStr (id v)); ("filename", JStr (filename v)); ("url", JStr (url v));
         ("timestamp", JStr (timestamp v)); ("duration", JNum (duration v));
         ("streamId", JStr (streamId v)) ].

Definition decode_video (o : json) : option SavedVideo :=
  match get_prop "id" o, get_prop "filename" o, get_prop "url" o,
        get_prop "timestamp" o, get_prop "duration" o, get_prop "streamId" o with
  | Some (JStr i), Some (JStr f), Some (JStr u), Some (JStr t), Some (JNum d), Some (JStr s) =>
      Some (mkVideo i f u t d s)
  | _, _, _, _, _, _ => None
  end.

Fixpoint decode_videos (items : list json) : option (list SavedVideo) :=
  match items with
  | [] => Some []
  | o :: items' =>
      match decode_video o, decode_videos items' with
      | Some v, Some vs => Some (v :: vs)
      | _, _ => None
      end
  end.

(** The component's state cells and the browser's [localStorage]. *)
Record State := mkState {
  savedVideos : list SavedVideo;
  selectedVideo : option SavedVideo;
  searchTerm : string;
  sortBy : SortKey;
  filterBy : TimeFilter;
  localStorage : gmap string json
}.

Definition setSavedVideos (vs : list SavedVideo) (st : State) : State :=
  mkState vs (selectedVideo st) (searchTerm st) (sortBy st) (filterBy st) (localStorage st).
Definition setSelectedVideo (v : option SavedVideo) (st : State) : State :=
  mkState (savedVideos st) v (searchTerm st) (sortBy st) (filterBy st) (localStorage st).
Definition set_localStorage (ls : gmap string json) (st : State) : State :=
  mkState (savedVideos st) (selectedVideo st) (searchTerm st) (sortBy st) (filterBy st) ls.

(** The gallery as mounted over a store, before the effect runs. *)
Definition mounted (ls : gmap string json) : State :=
  mkState [] None "" sort_date filter_all ls.

(** What [JSON.parse(localStorage.getItem('savedVideos') || '[]')] is at type
    [SavedVideo[]]; [None] when the stored value is not of that type. *)
Definition stored_videos (ls : gmap string json) : option (list SavedVideo) :=
  match getItem_or_empty "savedVideos" ls with
  | JArr items => decode_videos items
  | _ => None
  end.

(** [loadSavedVideos] *)
Definition loadSavedVideos (st : State) : option State :=
  match stored_videos (localStorage st) with
  | Some videos => Some (setSavedVideos videos st)
  | None => None
  end.

(** [deleteVideo] *)
Definition deleteVideo (videoId : string) (st : State) : State :=
  let updatedVideos :=
    List.filter (fun video => negb (String.eqb (id video) videoId)) (savedVideos st) in
  let st := setSavedVideos updatedVideos st in
  let st := set_localStorage
              (setItem "savedVideos" (JArr (map encode_video updatedVideos))
                       (localStorage st)) st in
  match selectedVideo st with
  | Some v => if String.eqb (id v) videoId then setSelectedVideo None st else st
  | None => st
  end.

(** *** Dates

    What the query uses of the browser's [Date], [Intl] and Unicode tables:
    - [Date_parse s] is the time value of [new Date(s)] in milliseconds,
      [None] for an invalid date (NaN);
    - [LocalTime t] is [t] shifted to the local time zone;
    - [localeCompare a b] is [a.localeCompare(b)];
    - [Unicode_toLowerCase s] is [s.toLowerCase()] for a string that has
      characters outside the ASCII range. *)
Record Platform := mkPlatform {
  Date_parse : string -> option Z;
  LocalTime : Z -> Z;
  localeCompare : string -> string -> Z;
  Unicode_toLowerCase : string -> string
}.

(** [s.toLowerCase()].  On a string of ASCII characters the letters A to Z
    are replaced by a to z and nothing else changes.  On any other string
    the result is that of the Unicode case conversion, which is not letter
    by letter: it depends on the neighbours of a character (a capital sigma
    that ends a word becomes a final sigma) and may change the length. *)
Definition toLowerCase (P : Platform) (s : string) : string :=
  if is_ascii s then map_chars lower s else Unicode_toLowerCase P s.

Definition msPerDay : Z := 24 * 60 * 60 * 1000.

(** The local calendar day of a time value, counted from the epoch. *)
Definition Day (P : Platform) (t : Z) : Z := LocalTime P t / msPerDay.

(** [d.toDateString()] prints the weekday, month, day of month and year of
    the local calendar day of [d] and nothing else, or "Invalid Date".  Two
    results are the same string exactly when they show the same day; the
    result is modelled by that day, [None] for "Invalid Date". *)
Definition toDateString (P : Platform) (d : option Z) : option Z :=
  Day P <$> d.

Definition option_Z_eqb (a b : option Z) : bool :=
  match a, b with
  | Some x, Some y => x =? y
  | None, None => true
  | _, _ => false
  end.

(** [d >= e] on dates: false when [d] is invalid. *)
Definition date_geb (d : option Z) (e : Z) : bool :=
  match d with
  | Some t => e <=? t
  | None => false
  end.

(** [x - y] on time values, NaN when either is; a comparator result of NaN
    counts as 0. *)
Definition time_diff (x y : option Z) : Z :=
  match x, y with
  | Some a, Some b => a - b
  | _, _ => 0
  end.

(** *** The query *)

(** The callback given to [filter]. *)
Definition keep (P : Platform) (now : Z) (term : string) (f : TimeFilter)
    (video : SavedVideo) : bool :=
  let matchesSearch :=
    includes (toLowerCase P (filename video)) (toLowerCase P term) ||
    includes (toLowerCase P (streamId video)) (toLowerCase P term) in
  if negb matchesSearch then false
  else
    let videoDate := Date_parse P (timestamp video) in
    match f with
    | filter_today => option_Z_eqb (toDateString P videoDate) (toDateString P (Some now))
    | filter_week =>
        let weekAgo := now - 7 * 24 * 60 * 60 * 1000 in
        date_geb videoDate weekAgo
    | filter_month =>
        let monthAgo := now - 30 * 24 * 60 * 60 * 1000 in
        date_geb videoDate monthAgo
    | filter_all => true
    end.

(** The callback given to [sort]. *)
Definition compareVideos (P : Platform) (key : SortKey) (a b : SavedVideo) : Z :=
  match key with
  | sort_date => time_diff (Date_parse P (timestamp b)) (Date_parse P (timestamp a))
  | sort_duration => duration b - duration a
  | sort_name => localeCompare P (filename a) (filename b)
  end.

(** [array.filter(callback)] for a callback that is given a reading of its
    own for each element: [callback i] is the callback as it runs on the
    element at index [i]. *)
Fixpoint filter_from {A : Type} (callback : nat -> A -> bool) (i : nat) (l : list A)
  : list A :=
  match l with
  | [] => []
  | x :: l' =>
      if callback i x then x :: filter_from callback (S i) l'
      else filter_from callback (S i) l'
  end.

(** [filteredAndSortedVideos], for the state cells it reads.  The filter
    callback reads the clock ([new Date()]) each time it is called; [clock i]
    is the reading in the call for the entry at index [i]. *)
Definition filteredAndSortedVideos (P : Platform) (clock : nat -> Z)
    (savedVideos : list SavedVideo) (searchTerm : string)
    (sortBy : SortKey) (filterBy : TimeFilter) : list SavedVideo :=
  sort (compareVideos P sortBy)
       (filter_from (fun i => keep P (clock i) searchTerm filterBy) 0 savedVideos).

End VideoGallery.

(** ** Vocabulary of the statements *)

(** Runs of the recorder: what a sequence of run events amounts to, and the
    worlds a run passes through. *)
Module RunSpec.
Import Broadcaster.

Definition nonempty (b : Blob) : bool := 0 <? size b.

(** Number of firings of the duration timer. *)
Fixpoint ticks (evs : list RunEvent) : Z :=
  match evs with
  | [] => 0
  | tick :: evs' => 1 + ticks evs'
  | chunk _ :: evs' => ticks evs'
  end.

(** The time-slice chunks, in the order they were delivered. *)
Fixpoint delivered (evs : list RunEvent) : list Blob :=
  match evs with
  | [] => []
  | tick :: evs' => delivered evs'
  | chunk data :: evs' => data :: delivered evs'
  end.

(** What a run collects: the delivered chunks and then the data flushed by
    [stop()], those of size 0 left out. *)
Definition collected (evs : list RunEvent) (inflight : Blob) : list Blob :=
  List.filter nonempty (delivered evs ++ [inflight]).

(** The world right after a successful [startStreaming] on stream [s]. *)
Definition started (w : World) (s : MediaStream) : World :=
  let b := browser w in
  mkWorld (streamId w) (mkHooks true true 0)
    (mkRefs (Some s) (Some (length (recorders b))) [] (Some (timer_seq b)))
    (mkBrowser (recorders b ++ [mkRecorder recording (recordingDuration (hooks w))])
               ({[timer_seq b]} ∪ intervals b) (S (timer_seq b)) (tasks b)
               (localStorage b) (downloads b) (console b)).

(** The world after the events [evs] of a run. *)
Definition after_steps (evs : list RunEvent) (w : World) : World :=
  set_recordedChunksRef
    (recordedChunksRef (refs w) ++ List.filter nonempty (delivered evs))
    (setRecordingDuration (fun d => d + ticks evs) w).

(** The world once [stopStreaming] has returned and the queued
    [dataavailable] has been handled, before [onstop] runs. *)
Definition flushed (w : World) (rid tid : nat) (s : MediaStream) (inflight : Blob)
  : World :=
  let b := browser w in
  mkWorld (streamId w)
    (mkHooks false false (recordingDuration (hooks w)))
    (mkRefs (Some (map stop_track s)) (Some rid)
            (recordedChunksRef (refs w) ++ List.filter nonempty [inflight])
            (Some tid))
    (mkBrowser
       (alter (fun r => mkRecorder inactive (onstop_recordingDuration r)) rid (recorders b))
       (intervals b ∖ {[tid]}) (timer_seq b) []
       (localStorage b) (downloads b) (console b)).

(** The world after [saveRecording] has downloaded the artifact and written
    its record behind the stored [items]. *)
Definition saved (d : Z) (env : SaveEnv) (items : list json) (w : World) : World :=
  let name := recording_filename (streamId w) (replace_colon_dot (iso_for_filename env)) in
  let w1 :=
    set_downloads
      (downloads (browser w) ++ [(name, new_Blob (recordedChunksRef (refs w)))]) w in
  set_localStorage
    (setItem "streamRecordings"
             (JArr (items ++ [recording_record (streamId w) d env]))
             (localStorage (browser w))) w1.

(** What the gallery can see of a world: the value stored under the key it
    reads. *)
Definition gallery_view (w : World) : option json :=
  getItem "savedVideos" (localStorage (browser w)).

(** A computation that leaves the gallery's view as it finds it, however it
    completes. *)
Definition keeps_view {A : Type} (c : M A) : Prop :=
  forall w, gallery_view (world_of (c w)) = gallery_view w.

(** *** Example data *)

Definition camera : MediaStream :=
  [mkTrack "video" true live; mkTrack "audio" true live].

Definition example_env : SaveEnv :=
  mkSaveEnv "2024-05-01T10:00:03.400Z" 1714557603401 "2024-05-01T10:00:03.401Z"
            "blob:https://app.example/7f0c".

(** The component mounted for stream "demo" over an empty store, camera
    granted. *)
Definition ready : World :=
  world_of (startCamera (Some camera) (mounted "demo" ∅)).

(** Chunks at ticks 1, 2 and 3. *)
Definition three_seconds : list RunEvent :=
  [chunk [x01]; tick; chunk [x02]; tick; chunk [x03]; tick].

(** [ready] with a recording in progress. *)
Definition recording_world : World := world_of (startStreaming true ready).

(** [ready] after a run of three seconds stopped at 3.4 s. *)
Definition recorded_world : World :=
  world_of (run true three_seconds [x04] example_env ready).

End RunSpec.

(** The gallery: the filter stage in the words of its description, and the
    list [deleteVideo] keeps. *)
Module GallerySpec.
Import VideoGallery.

(** A capital letter A to Z. *)
Definition is_capital (c : ascii) : bool :=
  ((65 <=? N_of_ascii c) && (N_of_ascii c <=? 90))%N.

(** Two characters that are the same when letter case is ignored: the same
    character, or a capital letter and its small letter, which the ASCII
    table places 32 positions further. *)
Definition same_letter (a b : ascii) : Prop :=
  a = b \/
  (is_capital a = true /\ N_of_ascii b = (N_of_ascii a + 32)%N) \/
  (is_capital b = true /\ N_of_ascii a = (N_of_ascii b + 32)%N).

(** Two strings that are the same, character by character, when letter case
    is ignored. *)
Fixpoint equal_ci (s t : string) : Prop :=
  match s, t with
  | EmptyString, EmptyString => True
  | String a s', String b t' => same_letter a b /\ equal_ci s' t'
  | _, _ => False
  end.

(** [term] occurs in [s] when letter case is ignored.  The letters are
    those of the ASCII range; an occurrence of [term] as it is written is an
    occurrence for any alphabet. *)
Definition contains_ci (s term : string) : Prop :=
  exists pre mid post, s = pre +:+ mid +:+ post /\ equal_ci mid term.

Definition in_time_window (P : Platform) (now : Z) (f : TimeFilter)
    (createdAt : option Z) : Prop :=
  match f with
  | filter_all => True
  | filter_today => exists t, createdAt = Some t /\ Day P t = Day P now
  | filter_week => exists t, createdAt = Some t /\ now - 7 * msPerDay <= t
  | filter_month => exists t, createdAt = Some t /\ now - 30 * msPerDay <= t
  end.

Definition passes_filter_stage (P : Platform) (now : Z) (term : string)
    (f : TimeFilter) (v : SavedVideo) : Prop :=
  (contains_ci (filename v) term \/ contains_ci (streamId v) term) /\
  in_time_window P now f (Date_parse P (timestamp v)).

(** The order the duration sort is said to produce: longer first, equal
    durations by ascending id. *)
Definition duration_then_id (a b : SavedVideo) : Prop :=
  duration b < duration a \/
  (duration a = duration b /\ String.leb (id a) (id b) = true).

(** The entries of [vs] whose id is not [videoId]. *)
Definition without (videoId : string) (vs : list SavedVideo) : list SavedVideo :=
  List.filter (fun video => negb (String.eqb (id video) videoId)) vs.

(** *** Example data *)

Definition compare_sign (c : comparison) : Z :=
  match c with Lt => -1 | Eq => 0 | Gt => 1 end.

(** The Greek capitals alpha and sigma, and the small alpha, sigma and final
    sigma (U+0391, U+03A3, U+03B1, U+03C3, U+03C2), in UTF-8. *)
Definition Alpha : string := String "206" (String "145" "").
Definition Sigma : string := String "206" (String "163" "").
Definition alpha : string := String "206" (String "177" "").
Definition sigma : string := String "207" (String "131" "").
Definition final_sigma : string := String "207" (String "130" "").

(** A platform for the examples: the clock is UTC, names compare by code
    unit, [Date_parse] knows the three timestamps the examples use, and
    [toLowerCase] knows the two Greek words the examples use: a capital
    sigma alone becomes a small sigma, and at the end of the word
    alpha-sigma it becomes a final sigma. *)
Definition example_platform : Platform :=
  mkPlatform
    (fun s =>
       if String.eqb s "2024-05-01T09:00:00.000Z" then Some 1714554000000
       else if String.eqb s "2024-04-30T23:30:00.000Z" then Some 1714519800000
       else if String.eqb s "2024-04-21T09:00:00.000Z" then Some 1713690000000
       else None)
    (fun t => t)
    (fun a b => compare_sign (String.compare a b))
    (fun s =>
       if String.eqb s Sigma then sigma
       else if String.eqb s (Alpha +:+ Sigma) then alpha +:+ final_sigma
       else s).

(** 2024-05-01T12:00:00.000Z *)
Definition example_now : Z := 1714564800000.

(** A clock that reads [example_now] for every entry. *)
Definition example_clock : nat -> Z := fun _ => example_now.

Definition clip1 : SavedVideo :=
  mkVideo "a" "clip1.dat" "blob:1" "2024-05-01T09:00:00.000Z" 30 "s1".
Definition clip2 : SavedVideo :=
  mkVideo "b" "clip2.dat" "blob:2" "2024-04-21T09:00:00.000Z" 90 "s1".
Definition late_clip : SavedVideo :=
  mkVideo "c" "Late.dat" "blob:3" "2024-04-30T23:30:00.000Z" 30 "S2".

(** An entry whose file name is the Greek word alpha-sigma in capitals. *)
Definition greek_clip : SavedVideo :=
  mkVideo "g" (Alpha +:+ Sigma) "blob:4" "2024-05-01T09:00:00.000Z" 30 "s1".

(** Two entries of equal duration, stored with the larger id first. *)
Definition tie_b : SavedVideo :=
  mkVideo "b" "second.dat" "blob:b" "2024-05-01T09:00:00.000Z" 5 "s1".
Definition tie_a : SavedVideo :=
  mkVideo "a" "first.dat" "blob:a" "2024-05-01T09:00:00.000Z" 5 "s1".

(** A gallery showing [clip1] and [clip2], with [clip2] selected. *)
Definition example_gallery : State :=
  mkState [clip1; clip2] (Some clip2) "" sort_date filter_all
          {[ "savedVideos" := JArr [encode_video clip1; encode_video clip2] ]}.

End GallerySpec.

(** ** The rest of the three components

    What the pipeline above leaves out of Broadcaster.tsx and
    VideoGallery.tsx (the duration display, the track buttons, the cleanup on
    unmount, the viewer link, the title of a video), and App.tsx, which
    mounts the components. *)

(** *** Numbers and strings as the display code uses them *)

(** [n.toString()] for an integer [n] (below 10^21 in absolute value, where
    JavaScript prints every digit). *)
Definition toString (n : Z) : string := NilZero.string_of_int (Z.to_int n).

(** The first [n] characters of [pad] repeated; [cur] is what is left of the
    copy being read. *)
Fixpoint fill (n : nat) (pad cur : string) : string :=
  match n with
  | O => ""
  | S n' =>
      match cur with
      | String c rest => String c (fill n' pad rest)
      | EmptyString =>
          match pad with
          | String c rest => String c (fill n' pad rest)
          | EmptyString => ""
          end
      end
  end.

(** [s.padStart(targetLength, padString)] *)
Definition padStart (targetLength : nat) (padString s : string) : string :=
  fill (targetLength - String.length s) padString padString +:+ s.

(** The integer a string of decimal digits denotes, [None] if it is none. *)
Definition numeral_value (s : string) : option Z :=
  Z.of_int <$> NilZero.int_of_string s.

Fixpoint zeros (k : nat) : string :=
  match k with O => "" | S k' => String "0" (zeros k') end.

(** Number of occurrences of a character. *)
Fixpoint count_char (c : ascii) (s : string) : nat :=
  match s with
  | EmptyString => O
  | String a s' => ((if Ascii.eqb a c then 1 else 0) + count_char c s')%nat
  end.

Fixpoint drop_chars (n : nat) (s : string) : string :=
  match n, s with
  | S n', String _ s' => drop_chars n' s'
  | _, _ => s
  end.

(** [s.replace(pattern, replacement)] for a string pattern and a replacement
    without [$]: the first occurrence of the pattern is replaced. *)
Fixpoint replace_first (pattern replacement s : string) : string :=
  if startsWith pattern s then replacement +:+ drop_chars (String.length pattern) s
  else
    match s with
    | EmptyString => EmptyString
    | String c s' => String c (replace_first pattern replacement s')
    end.

(** [s.trim()], with the ASCII white space and line terminators. *)
Definition is_space (c : ascii) : bool :=
  let n := N_of_ascii c in ((9 <=? n) && (n <=? 13) || (n =? 32))%N.

Fixpoint trimStart (s : string) : string :=
  match s with
  | String c s' => if is_space c then trimStart s' else s
  | EmptyString => EmptyString
  end.

Fixpoint trimEnd (s : string) : string :=
  match s with
  | EmptyString => EmptyString
  | String c s' =>
      match trimEnd s' with
      | EmptyString => if is_space c then EmptyString else String c EmptyString
      | rest => String c rest
      end
  end.

Definition trim (s : string) : string := trimEnd (trimStart s).

Definition is_empty (s : string) : bool :=
  match s with EmptyString => true | _ => false end.

(** *** URL query strings *)

Module Url.

(** [s.split(sep)] for a one-character separator. *)
Fixpoint split_on (sep : ascii) (s : string) : list string :=
  match s with
  | EmptyString => [EmptyString]
  | String c s' =>
      if Ascii.eqb c sep then EmptyString :: split_on sep s'
      else
        match split_on sep s' with
        | first :: others => String c first :: others
        | [] => [String c EmptyString]
        end
  end.

(** The part of [s] before the first [sep] and the part after it; [None]
    when [sep] does not occur. *)
Fixpoint cut_at (sep : ascii) (s : string) : option (string * string) :=
  match s with
  | EmptyString => None
  | String c s' =>
      if Ascii.eqb c sep then Some (EmptyString, s')
      else
        match cut_at sep s' with
        | Some (before, after) => Some (String c before, after)
        | None => None
        end
  end.

Definition hex_digit (c : ascii) : option N :=
  let n := N_of_ascii c in
  if ((48 <=? n) && (n <=? 57))%N then Some (n - 48)%N
  else if ((65 <=? n) && (n <=? 70))%N then Some (n - 55)%N
  else if ((97 <=? n) && (n <=? 102))%N then Some (n - 87)%N
  else None.

(** Percent-decoding: [%XY] with two hexadecimal digits is the byte [XY];
    any other [%] stands for itself. *)
Fixpoint percent_decode (s : string) : string :=
  match s with
  | String "%" (String x (String y rest as tail) as after) =>
      match hex_digit x, hex_digit y with
      | Some h, Some l => String (ascii_of_N (16 * h + l)) (percent_decode rest)
      | _, _ => String "%" (percent_decode after)
      end
  | String c s' => String c (percent_decode s')
  | EmptyString => EmptyString
  end.

Definition plus_to_space (s : string) : string :=
  map_chars (fun c => if Ascii.eqb c "+" then " "%char else c) s.

Definition decode_component (s : string) : string :=
  percent_decode (plus_to_space s).

(** [new URLSearchParams(init)] for a string: one leading [?] is dropped,
    the rest is cut at every [&]; an empty piece is skipped; a piece is cut
    at its first [=] into name and value (no [=]: the value is empty); in
    both, [+] becomes a space and percent-escapes are decoded.  Strings are
    the UTF-8 bytes of the text; escapes that decode to bytes that are not
    UTF-8, which a browser replaces by U+FFFD, are outside the model. *)
Definition parse_pair (piece : string) : string * string :=
  match cut_at "=" piece with
  | Some (name, value) => (decode_component name, decode_component value)
  | None => (decode_component piece, EmptyString)
  end.

Definition URLSearchParams (init : string) : list (string * string) :=
  let body := match init with String "?" rest => rest | _ => init end in
  map parse_pair (List.filter (fun piece => negb (is_empty piece)) (split_on "&" body)).

(** [params.get(name)]: the value of the first pair of that name, [None]
    for [null]. *)
Fixpoint get (name : string) (params : list (string * string)) : option string :=
  match params with
  | [] => None
  | (n, v) :: rest => if String.eqb n name then Some v else get name rest
  end.

End Url.

(** *** Broadcaster: display, track buttons, cleanup *)

Module BroadcasterUI.
Import Broadcaster RunSpec.

(** [formatDuration] of Broadcaster.tsx (Viewer.tsx has the same function):
    [Math.floor(seconds / 60)] and [seconds % 60], each padded to two
    places. *)
Definition formatDuration (seconds : Z) : string :=
  let mins := seconds / 60 in
  let secs := Z.rem seconds 60 in
  padStart 2 "0" (toString mins) +:+ ":" +:+ padStart 2 "0" (toString secs).

(** The two [useState] cells of the track buttons. *)
Record Controls := mkControls {
  isVideoEnabled : bool;
  isAudioEnabled : bool
}.

(** [track.enabled = !track.enabled] on [stream.getVideoTracks()[0]] (or
    [getAudioTracks()[0]]): the first track of kind [k], flipped in place.
    The result is the new value of [enabled] and the stream; [None] when the
    stream has no track of that kind. *)
Fixpoint flip_first (k : string) (s : MediaStream) : option (bool * MediaStream) :=
  match s with
  | [] => None
  | t :: s' =>
      if String.eqb (kind t) k then
        Some (negb (enabled t), mkTrack (kind t) (negb (enabled t)) (readyState t) :: s')
      else
        match flip_first k s' with
        | Some (e, s'') => Some (e, t :: s'')
        | None => None
        end
  end.

(** [toggleVideo] *)
Definition toggleVideo (c : Controls) : M Controls :=
  cur ← gets (fun w => streamRef (refs w));
  match cur with
  | Some stream =>
      match flip_first "video" stream with
      | Some (e, stream') =>
          modify (set_streamRef (Some stream'));;
          mret (mkControls e (isAudioEnabled c))
      | None => mret c
      end
  | None => mret c
  end.

(** [toggleAudio] *)
Definition toggleAudio (c : Controls) : M Controls :=
  cur ← gets (fun w => streamRef (refs w));
  match cur with
  | Some stream =>
      match flip_first "audio" stream with
      | Some (e, stream') =>
          modify (set_streamRef (Some stream'));;
          mret (mkControls (isVideoEnabled c) e)
      | None => mret c
      end
  | None => mret c
  end.

(** The cleanup of the mount effect: [stopStreaming()], then
    [clearInterval] of the duration timer if the ref holds one. *)
Definition unmount (inflight : Blob) : M unit :=
  stopStreaming inflight;;
  iv ← gets (fun w => recordingIntervalRef (refs w));
  match iv with
  | Some tid => clearInterval tid
  | None => mret tt
  end.

(** The viewer link of [generateQRCode] and [shareStream]. *)
Definition viewerUrl (origin sid : string) : string :=
  origin +:+ "?streamId=" +:+ sid +:+ "&mode=view".

(** Every live duration timer was handed out by [setInterval]. *)
Definition timers_issued (w : World) : Prop :=
  forall t, t ∈ intervals (browser w) -> (t < timer_seq (browser w))%nat.

(** What a track button may change of a world: the [enabled] flags of the
    tracks of the stream. *)
Definition same_but_enabled (w w' : World) : Prop :=
  streamId w' = streamId w /\ hooks w' = hooks w /\ browser w' = browser w /\
  mediaRecorderRef (refs w') = mediaRecorderRef (refs w) /\
  recordedChunksRef (refs w') = recordedChunksRef (refs w) /\
  recordingIntervalRef (refs w') = recordingIntervalRef (refs w) /\
  match streamRef (refs w), streamRef (refs w') with
  | Some s, Some s' =>
      map kind s' = map kind s /\ map readyState s' = map readyState s
  | None, None => True
  | _, _ => False
  end.

(** The world right after [startStreaming] on a stream [s] whose tracks
    have all ended: the recorder is constructed, [start] throws, the
    exception is logged. *)
Definition refused (w : World) (s : MediaStream) : World :=
  let b := browser w in
  mkWorld (streamId w) (mkHooks true true 0)
    (mkRefs (Some s) (Some (length (recorders b))) [] (recordingIntervalRef (refs w)))
    (mkBrowser (recorders b ++ [mkRecorder inactive (recordingDuration (hooks w))])
               (intervals b) (timer_seq b) (tasks b) (localStorage b) (downloads b)
               (console b ++ [console_error "Error starting recording:" NotSupportedError])).

(** A computation that leaves the value under the key [k] of the store as
    it finds it, however it completes. *)
Definition keeps_key (k : string) {A : Type} (c : M A) : Prop :=
  forall w, getItem k (localStorage (browser (world_of (c w)))) =
            getItem k (localStorage (browser w)).

Definition is_array (v : json) : bool :=
  match v with JArr _ => true | _ => false end.

(** [ready] over a store whose "streamRecordings" is an object, not an
    array. *)
Definition ready_over_foreign_store : World :=
  set_localStorage {[ "streamRecordings" := JObj [] ]} ready.

End BroadcasterUI.

(** *** VideoGallery: display *)

Module GalleryUI.
Import VideoGallery GallerySpec.

(** [formatDuration] of VideoGallery.tsx: the minutes are not padded. *)
Definition formatDuration (seconds : Z) : string :=
  let mins := seconds / 60 in
  let secs := Z.rem seconds 60 in
  toString mins +:+ ":" +:+ padStart 2 "0" (toString secs).

(** The title shown for a video: [video.filename.replace('.webm', '')]. *)
Definition title (video : SavedVideo) : string :=
  replace_first ".webm" "" (filename video).

(** The timestamp of an entry as a time value, 0 when it is not a date. *)
Definition time_of (P : Platform) (v : SavedVideo) : Z :=
  default 0 (Date_parse P (timestamp v)).

(** The store holds what the gallery shows. *)
Definition in_sync (st : State) : Prop :=
  stored_videos (localStorage st) = Some (savedVideos st).

(** A gallery mounted over the store of [example_gallery]. *)
Definition example_mounted : State := mounted (localStorage example_gallery).

Definition webm_clip : SavedVideo :=
  mkVideo "w" "stream-abc-2024-05-01T09-00-00-000Z.webm" "blob:w"
          "2024-05-01T09:00:00.000Z" 12 "abc".

End GalleryUI.

(** *** App *)

Module App.

Inductive Mode := select | broadcast | view | gallery | qr_scan.

Record State := mkApp {
  mode : Mode;
  streamId : string
}.

Definition initial : State := mkApp select "".

Definition setMode (m : Mode) (st : State) : State := mkApp m (streamId st).
Definition setStreamId (s : string) (st : State) : State := mkApp (mode st) s.

(** The mount effect; [search] is [window.location.search]. *)
Definition mount_effect (search : string) (st : State) : State :=
  let urlParams := Url.URLSearchParams search in
  let urlStreamId := Url.get "streamId" urlParams in
  let urlMode := Url.get "mode" urlParams in
  match urlStreamId, urlMode with
  | Some id, Some m =>
      if negb (is_empty id) && String.eqb m "view"
      then setMode view (setStreamId id st) else st
  | _, _ => st
  end.

(** [startBroadcast]; [id] is the result of [generateStreamId()], which
    draws on [Math.random()]. *)
Definition startBroadcast (id : string) (st : State) : State :=
  setMode broadcast (setStreamId id st).

Definition joinStream (st : State) : State :=
  if negb (is_empty (trim (streamId st))) then setMode view st else st.

Definition goBack (st : State) : State :=
  setStreamId "" (setMode select st).

(** The callback given to the scanner as [onStreamIdFound]. *)
Definition onStreamIdFound (id : string) (st : State) : State :=
  setMode view (setStreamId id st).

(** What the user, or the scanner, can do.  A control acts only on the
    screen that shows it: the select screen has the start button, the id
    field, the join, gallery and scan buttons; every other screen has its
    back button; the scanner screen has the scanner, which reports an id
    only when it is not empty (QRScanner.tsx, [if (streamId)]). *)
Inductive Event :=
| click_start_broadcast (generated : string)
| type_stream_id (value : string)
| click_join
| click_gallery
| click_scan
| click_back
| scanner_found (id : string).

Definition handle (st : State) (ev : Event) : State :=
  match mode st, ev with
  | select, click_start_broadcast id => startBroadcast id st
  | select, type_stream_id value => setStreamId value st
  | select, click_join => joinStream st
  | select, click_gallery => setMode gallery st
  | select, click_scan => setMode qr_scan st
  | (broadcast | view | gallery | qr_scan), click_back => goBack st
  | qr_scan, scanner_found id => if is_empty id then st else onStreamIdFound id st
  | _, _ => st
  end.

(** The app after it was opened with [search] in the address and the
    events [evs] happened. *)
Definition session (search : string) (evs : list Event) : State :=
  foldl handle (mount_effect search initial) evs.

(** The query as the viewer link has it written:
    [BroadcasterUI.viewerUrl origin sid] is [origin] followed by it.  It is
    [window.location.search] of a page opened with that link when the
    browser's URL parser takes the query as written, which it does when the
    stream id is made of letters and digits; it ends the query at a [#],
    drops tabs and line breaks, and escapes spaces, quotes, angle brackets
    and characters outside the ASCII range. *)
Definition viewer_query (sid : string) : string :=
  "?streamId=" +:+ sid +:+ "&mode=view".

(** A digit or an ASCII letter.  The ids that [generateStreamId] draws are
    made of digits and small letters: the digits of base 36. *)
Definition is_alphanumeric (c : ascii) : bool :=
  let n := N_of_ascii c in
  ((48 <=? n) && (n <=? 57) || (65 <=? n) && (n <=? 90) ||
   (97 <=? n) && (n <=? 122))%N.

Fixpoint all_alphanumeric (s : string) : bool :=
  match s with
  | EmptyString => true
  | String c s' => is_alphanumeric c && all_alphanumeric s'
  end.

Definition has_id_when_viewing (st : State) : Prop :=
  mode st = view -> streamId st <> "".

End App.

(** * Properties *)

(** ** The recorder *)

Module BroadcasterFacts.
Import Broadcaster RunSpec.

Ltac unfold_setters :=
  unfold setIsStreaming, setIsRecording, setRecordingDuration, set_streamRef,
    set_mediaRecorderRef, set_recordedChunksRef, set_recordingIntervalRef,
    set_recorders, set_timers, set_tasks, set_localStorage, set_downloads,
    set_console, on_hooks, on_refs, on_browser in *.

Ltac unfold_monad :=
  unfold mbind, M_bind, mret, M_ret, gets, modify, throw, try_catch, log in *.

Ltac open_world w :=
  destruct w as [?sid [?streaming ?rec ?dur] [?stream ?mr ?chunks ?iv]
                      [?rs ?live ?next ?queue ?ls ?dl ?con]];
  simpl in *.

Lemma alter_last {A} (f : A -> A) (l : list A) (x : A) :
  alter f (length l) (l ++ [x]) = l ++ [f x].
Proof.
  rewrite alter_app_r_alt by lia. by rewrite Nat.sub_diag.
Qed.

Lemma stop_track_twice s : map stop_track (map stop_track s) = map stop_track s.
Proof. rewrite map_map. reflexivity. Qed.

Lemma stop_track_all_ended s :
  Forall (fun t => readyState t = ended) (map stop_track s).
Proof. induction s; constructor; auto. Qed.

Lemma clear_twice (live : gset nat) (tid : nat) :
  live ∖ {[tid]} ∖ {[tid]} = live ∖ {[tid]}.
Proof. apply set_eq. intros x. rewrite !elem_of_difference. tauto. Qed.

(** *** The phases of a run *)

Lemma startStreaming_started w s :
  streamRef (refs w) = Some s -> active s = true ->
  startStreaming true w = Normal tt (started w s).
Proof.
  intros Hs Ha. open_world w. subst stream.
  unfold startStreaming, new_MediaRecorder, MediaRecorder_start, recorder_state,
    set_recorder_state, setInterval, started.
  unfold_monad. unfold_setters. simpl.
  rewrite list_lookup_middle by done. simpl. rewrite Ha. simpl.
  rewrite alter_last. reflexivity.
Qed.

Lemma steps_after evs : forall w tid,
  recordingIntervalRef (refs w) = Some tid ->
  tid ∈ intervals (browser w) ->
  steps evs w = Normal tt (after_steps evs w).
Proof.
  induction evs as [|ev evs IH]; intros w tid Hiv Hlive.
  - open_world w. unfold after_steps. unfold_setters. simpl.
    rewrite app_nil_r, Z.add_0_r. reflexivity.
  - destruct ev as [|data]; simpl; unfold mbind, M_bind.
    + unfold step, interval_fired. unfold_monad. rewrite Hiv.
      destruct (decide (tid ∈ intervals (browser w))) as [_|Hn]; [|contradiction].
      rewrite (IH _ tid) by (open_world w; assumption).
      open_world w. unfold after_steps. unfold_setters. simpl.
      do 3 f_equal. lia.
    + unfold step, ondataavailable. unfold_monad.
      unfold after_steps at 1. simpl. unfold nonempty at 1.
      destruct (0 <? size data) eqn:Hsz.
      * rewrite (IH _ tid) by (open_world w; assumption).
        open_world w. unfold after_steps. unfold_setters. simpl.
        rewrite <- app_assoc. reflexivity.
      * rewrite (IH _ tid) by assumption. reflexivity.
Qed.

Lemma stop_then_drain w rid d tid s inflight env :
  mediaRecorderRef (refs w) = Some rid ->
  recorders (browser w) !! rid = Some (mkRecorder recording d) ->
  recordingIntervalRef (refs w) = Some tid ->
  streamRef (refs w) = Some s ->
  tasks (browser w) = [] ->
  (stopStreaming inflight;; drain env) w =
  try_catch (saveRecording d env) (fun e => log (uncaught e))
            (flushed w rid tid s inflight).
Proof.
  intros Hmr Hrec Hiv Hs Hq. open_world w. subst.
  unfold stopStreaming, drain, MediaRecorder_stop, recorder_state,
    set_recorder_state, clearInterval, flushed.
  unfold_monad. unfold_setters. simpl.
  rewrite Hrec. simpl. rewrite Hrec. simpl.
  unfold run_task, ondataavailable, onstop, nonempty.
  unfold_monad. unfold_setters. simpl.
  destruct (0 <? size inflight); simpl;
    rewrite list_lookup_alter_eq, Hrec; simpl; rewrite ?app_nil_r;
    destruct (saveRecording d env _) as [[] ?|? ?]; reflexivity.
Qed.

Lemma saveRecording_nothing d env w :
  recordedChunksRef (refs w) = [] -> saveRecording d env w = Normal tt w.
Proof.
  intros H. unfold saveRecording. unfold_monad. rewrite H. reflexivity.
Qed.

Lemma saveRecording_saved d env w items :
  recordedChunksRef (refs w) <> [] ->
  getItem_or_empty "streamRecordings" (localStorage (browser w)) = JArr items ->
  saveRecording d env w = Normal tt (saved d env items w).
Proof.
  intros Hne Hst. unfold saveRecording, saved. unfold_monad.
  destruct (recordedChunksRef (refs w)) as [|c cs] eqn:Hc; [contradiction|].
  open_world w. unfold_setters. simpl in *. rewrite Hst. subst. reflexivity.
Qed.

(** The artifact is handed to the user before the store is touched, so it
    is there whatever the store holds. *)
Lemma saveRecording_downloads d env w :
  recordedChunksRef (refs w) <> [] ->
  let w' := world_of (saveRecording d env w) in
  downloads (browser w') =
    downloads (browser w) ++
    [(recording_filename (streamId w) (replace_colon_dot (iso_for_filename env)),
      new_Blob (recordedChunksRef (refs w)))] /\
  hooks w' = hooks w /\ refs w' = refs w.
Proof.
  intros Hne. unfold saveRecording. unfold_monad.
  destruct (recordedChunksRef (refs w)) as [|c cs] eqn:Hc; [contradiction|].
  open_world w. unfold_setters. simpl in *. subst.
  destruct (getItem_or_empty _ ls); simpl; auto.
Qed.

(** A run on an active stream comes down to [saveRecording], called with
    the [recordingDuration] rendered when the run was started, in the world
    that holds what the run collected. *)
Lemma run_unfold w s evs inflight env :
  streamRef (refs w) = Some s -> active s = true -> tasks (browser w) = [] ->
  run true evs inflight env w =
  try_catch (saveRecording (recordingDuration (hooks w)) env)
            (fun e => log (uncaught e))
            (flushed (after_steps evs (started w s))
                     (length (recorders (browser w))) (timer_seq (browser w))
                     s inflight).
Proof.
  intros Hs Ha Hq. unfold run.
  change (startStreaming true;; steps evs;; stopStreaming inflight;; drain env)
    with (fun w0 => match startStreaming true w0 with
                    | Normal _ w1 =>
                        match steps evs w1 with
                        | Normal _ w2 => (stopStreaming inflight;; drain env) w2
                        | Throw e w2 => Throw e w2
                        end
                    | Throw e w1 => Throw e w1
                    end).
  cbv beta. rewrite (startStreaming_started w s Hs Ha).
  rewrite (steps_after evs (started w s) (timer_seq (browser w)))
    by (simpl; first [reflexivity | set_solver]).
  apply stop_then_drain; try (open_world w; reflexivity).
  - open_world w. by apply list_lookup_middle.
  - open_world w. assumption.
Qed.

Lemma flushed_chunks w s evs inflight rid tid :
  recordedChunksRef (refs (flushed (after_steps evs (started w s)) rid tid s inflight))
  = collected evs inflight.
Proof.
  unfold collected. rewrite List.filter_app. reflexivity.
Qed.

(** The record a run writes carries the [recordingDuration] that was on
    screen when the run was started, not the count the timer reached. *)
Lemma run_persists_rendered_duration w s evs inflight env items :
  streamRef (refs w) = Some s -> active s = true -> tasks (browser w) = [] ->
  collected evs inflight <> [] ->
  getItem_or_empty "streamRecordings" (localStorage (browser w)) = JArr items ->
  getItem "streamRecordings"
          (localStorage (browser (world_of (run true evs inflight env w)))) =
  Some (JArr (items ++
              [recording_record (streamId w) (recordingDuration (hooks w)) env])).
Proof.
  intros Hs Ha Hq Hne Hst.
  rewrite (run_unfold w s evs inflight env Hs Ha Hq). unfold try_catch.
  rewrite (saveRecording_saved _ _ _ items).
  - open_world w. unfold getItem, setItem. apply lookup_insert_eq.
  - rewrite flushed_chunks. exact Hne.
  - open_world w. exact Hst.
Qed.

(** *** Duration and artifact of a run *)

(** C2, as stated, at the run of the example: chunks at ticks 1, 2 and 3,
    stop at 3.4 s.  The record that is stored has duration 0, while three
    time-slice chunks were delivered and four chunks were collected. *)
Lemma persisted_duration_is_not_chunk_count :
  exists w' rec,
    run true three_seconds [x04] example_env ready = Normal tt w' /\
    getItem "streamRecordings" (localStorage (browser w')) = Some (JArr [rec]) /\
    get_prop "duration" rec = Some (JNum 0) /\
    length (List.filter nonempty (delivered three_seconds)) = 3%nat /\
    length (recordedChunksRef (refs w')) = 4%nat /\
    downloads (browser w') =
      [("stream-demo-2024-05-01T10-00-03-400Z.webm", [x01; x02; x03; x04])].
Proof.
  eexists _, _. split; [vm_compute; reflexivity|]. vm_compute. auto 6.
Qed.

(** C2, amended.  For every run on an active stream that collects at least
    one non-empty chunk: the run completes, the duration counter ends at the
    number of firings of the duration timer, the chunks held are the
    non-empty chunks delivered, in order of delivery, followed by the data
    flushed by stop, and the artifact handed to the user is their
    concatenation in that order. *)
Theorem run_counter_and_artifact w s evs inflight env :
  streamRef (refs w) = Some s -> active s = true -> tasks (browser w) = [] ->
  collected evs inflight <> [] ->
  exists w',
    run true evs inflight env w = Normal tt w' /\
    recordingDuration (hooks w') = ticks evs /\
    recordedChunksRef (refs w') = collected evs inflight /\
    downloads (browser w') =
      downloads (browser w) ++
      [(recording_filename (streamId w) (replace_colon_dot (iso_for_filename env)),
        new_Blob (collected evs inflight))].
Proof.
  intros Hs Ha Hq Hne.
  rewrite (run_unfold w s evs inflight env Hs Ha Hq).
  set (w2 := flushed _ _ _ _ _).
  assert (Hc : recordedChunksRef (refs w2) = collected evs inflight)
    by apply flushed_chunks.
  assert (Hne2 : recordedChunksRef (refs w2) <> []) by (rewrite Hc; exact Hne).
  destruct (saveRecording_downloads (recordingDuration (hooks w)) env w2 Hne2)
    as (Hd & Hh & Hr).
  assert (Hdur : recordingDuration (hooks w2) = ticks evs) by reflexivity.
  assert (Hdl : downloads (browser w2) = downloads (browser w))
    by (open_world w; reflexivity).
  assert (Hsid : streamId w2 = streamId w) by reflexivity.
  clearbody w2. unfold try_catch.
  destruct (saveRecording _ env w2) as [[] w3|e w3]; simpl in *.
  - exists w3. split; [reflexivity|].
    rewrite Hh, Hr, Hd, Hc, Hdl, Hsid. auto.
  - eexists. unfold log, modify. split; [reflexivity|].
    unfold_setters. simpl. rewrite Hh, Hr, Hd, Hc, Hdl, Hsid. auto.
Qed.

Lemma run_counter_and_artifact_witness :
  exists w',
    run true three_seconds [x04] example_env ready = Normal tt w' /\
    recordingDuration (hooks w') = 3 /\
    recordedChunksRef (refs w') = [[x01]; [x02]; [x03]; [x04]] /\
    downloads (browser w') =
      [("stream-demo-2024-05-01T10-00-03-400Z.webm", [x01; x02; x03; x04])].
Proof.
  apply (run_counter_and_artifact ready camera three_seconds [x04] example_env);
    [reflexivity | reflexivity | reflexivity | discriminate].
Defined.

(** *** A run that collects nothing *)

(** C3, as stated, at a run of two seconds in which the only chunk and the
    flushed data are empty: nothing is stored and nothing is handed to the
    user. *)
Lemma empty_run_creates_no_entry :
  exists w',
    run true [tick; chunk []; tick] [] example_env ready = Normal tt w' /\
    recordedChunksRef (refs w') = [] /\
    getItem "streamRecordings" (localStorage (browser w')) = None /\
    downloads (browser w') = [] /\
    console (browser w') = [].
Proof.
  eexists. split; [vm_compute; reflexivity|]. vm_compute. auto.
Qed.

(** C3, amended.  A run on an active stream that collects no chunk
    completes without an error, and leaves the store, the downloads and the
    console as they were: no artifact and no record. *)
Theorem run_without_chunks_saves_nothing w s evs inflight env :
  streamRef (refs w) = Some s -> active s = true -> tasks (browser w) = [] ->
  collected evs inflight = [] ->
  exists w',
    run true evs inflight env w = Normal tt w' /\
    localStorage (browser w') = localStorage (browser w) /\
    downloads (browser w') = downloads (browser w) /\
    console (browser w') = console (browser w).
Proof.
  intros Hs Ha Hq Hnil.
  rewrite (run_unfold w s evs inflight env Hs Ha Hq).
  unfold try_catch. rewrite saveRecording_nothing by (rewrite flushed_chunks; exact Hnil).
  eexists. split; [reflexivity|]. open_world w. auto.
Qed.

Lemma run_without_chunks_saves_nothing_witness :
  exists w',
    run true [tick; chunk []; tick] [] example_env ready = Normal tt w' /\
    localStorage (browser w') = localStorage (browser ready) /\
    downloads (browser w') = downloads (browser ready) /\
    console (browser w') = console (browser ready).
Proof.
  apply (run_without_chunks_saves_nothing ready camera); reflexivity.
Defined.

(** *** Starting *)

(** C4, as stated, without a stream and with a recording in progress: in
    both worlds [startStreaming] returns, it does not throw. *)
Lemma startStreaming_does_not_fail :
  streamRef (refs (mounted "demo" ∅)) = None /\
  startStreaming true (mounted "demo" ∅) = Normal tt (mounted "demo" ∅) /\
  (forall w', startStreaming true (mounted "demo" ∅) <> Throw InvalidStateError w') /\
  isRecording (hooks recording_world) = true /\
  (forall w', startStreaming true recording_world <> Throw InvalidStateError w').
Proof.
  split; [reflexivity|]. split; [reflexivity|]. split; [discriminate|].
  split; [reflexivity|]. intros w'. vm_compute. discriminate.
Qed.

(** C4, amended.  [startStreaming] always returns.  Without a stream it
    changes nothing.  With a stream, when the browser cannot record the
    requested type or every track of the stream has ended, the exception is
    caught and reported on the console; otherwise a new recorder is started,
    also when one is recording already. *)
Theorem startStreaming_returns mimeTypeSupported w :
  exists w',
    startStreaming mimeTypeSupported w = Normal tt w' /\
    match streamRef (refs w) with
    | None => w' = w
    | Some s =>
        if mimeTypeSupported && active s then w' = started w s
        else exists e,
          console (browser w') =
            console (browser w) ++ [console_error "Error starting recording:" e]
    end.
Proof.
  destruct (streamRef (refs w)) as [s|] eqn:Hs.
  - destruct mimeTypeSupported; simpl.
    + destruct (active s) eqn:Ha.
      * exists (started w s). split; [by apply startStreaming_started | reflexivity].
      * open_world w. subst stream.
        unfold startStreaming, new_MediaRecorder, MediaRecorder_start,
          recorder_state, set_recorder_state, setInterval.
        unfold_monad. unfold_setters. simpl.
        rewrite list_lookup_middle by done. simpl. rewrite Ha. simpl.
        eexists. split; [reflexivity|]. simpl. eauto.
    + open_world w. subst stream.
      unfold startStreaming, new_MediaRecorder. unfold_monad. unfold_setters. simpl.
      eexists. split; [reflexivity|]. simpl. eauto.
  - exists w. split; [|reflexivity].
    unfold startStreaming. unfold_monad. rewrite Hs. reflexivity.
Qed.

(** *** Stopping *)

(** C8.  [stopStreaming] returns in every world, and leaves the session
    released: the stream it found has every track stopped and so ended, the
    recorder it found is inactive (a recorder that was running has had its
    last data and its stop event queued), the duration timer it found is
    not live, and the component shows neither streaming nor recording.  A
    second call on the world it leaves returns too and changes nothing (in
    particular it queues no second stop). *)
Theorem stopStreaming_idempotent inflight inflight' w :
  exists w1,
    stopStreaming inflight w = Normal tt w1 /\
    stopStreaming inflight' w1 = Normal tt w1 /\
    match streamRef (refs w1) with
    | Some s => Forall (fun t => readyState t = ended) s
    | None => True
    end /\
    streamRef (refs w1) = map stop_track <$> streamRef (refs w) /\
    mediaRecorderRef (refs w1) = mediaRecorderRef (refs w) /\
    recordingIntervalRef (refs w1) = recordingIntervalRef (refs w) /\
    isStreaming (hooks w1) = false /\ isRecording (hooks w1) = false /\
    (forall rid r, mediaRecorderRef (refs w) = Some rid ->
       recorders (browser w1) !! rid = Some r -> state r = inactive) /\
    (forall rid r, mediaRecorderRef (refs w) = Some rid ->
       recorders (browser w) !! rid = Some r -> state r <> inactive ->
       tasks (browser w1) =
         tasks (browser w) ++ [fire_dataavailable rid inflight; fire_stop rid]) /\
    (forall tid, recordingIntervalRef (refs w) = Some tid ->
       tid ∉ intervals (browser w1)).
Proof.
  open_world w.
  unfold stopStreaming, MediaRecorder_stop, recorder_state, set_recorder_state,
    clearInterval.
  unfold_monad. unfold_setters. simpl.
  assert (Htimer : forall (tid t : nat) (live : gset nat),
            Some tid = Some t -> t ∉ live ∖ {[tid]}).
  { intros tid t live' Heq. assert (tid = t) as -> by congruence.
    intros [_ Hn]%elem_of_difference. apply Hn, elem_of_singleton. reflexivity. }
  destruct mr as [rid|]; simpl.
  - destruct (rs !! rid) as [[[] d]|] eqn:Hrec; simpl; rewrite ?Hrec; simpl;
      destruct iv as [tid|]; simpl; destruct stream as [s|]; simpl;
      (eexists; split; [reflexivity|]); simpl;
      rewrite ?list_lookup_alter_eq, ?Hrec; simpl;
      rewrite ?clear_twice, ?stop_track_twice;
      (split; [reflexivity|]);
      (split; [auto using stop_track_all_ended|]);
      do 5 (split; [reflexivity|]);
      (split; [|split]);
      try (intros ? ? [= <-]; rewrite ?list_lookup_alter_eq, Hrec; simpl;
           intros [= <-]; reflexivity);
      try (intros ? ? [= <-]; rewrite Hrec; discriminate);
      try (intros ? ? [= <-]; rewrite Hrec; intros [= <-]; simpl; intros Hne;
           first [reflexivity | by destruct Hne]);
      try (intros ?; discriminate);
      try (intros ?; apply Htimer).
  - destruct iv as [tid|]; simpl; destruct stream as [s|]; simpl;
      (eexists; split; [reflexivity|]); simpl;
      rewrite ?clear_twice, ?stop_track_twice;
      (split; [reflexivity|]);
      (split; [auto using stop_track_all_ended|]);
      do 5 (split; [reflexivity|]);
      (split; [|split]);
      try (intros ? ? ?; discriminate);
      try (intros ?; discriminate);
      try (intros ?; apply Htimer).
Qed.

(** *** Saving *)

(** C10.  When [saveRecording] has chunks to save and the store holds a
    collection (or nothing yet), it returns, the stored collection is the
    prior one with the new record appended at the end, and every other key
    of the store is as it was. *)
Theorem saveRecording_appends_one_record d env w items :
  recordedChunksRef (refs w) <> [] ->
  getItem_or_empty "streamRecordings" (localStorage (browser w)) = JArr items ->
  exists w',
    saveRecording d env w = Normal tt w' /\
    getItem "streamRecordings" (localStorage (browser w')) =
      Some (JArr (items ++ [recording_record (streamId w) d env])) /\
    forall k, k <> "streamRecordings" ->
      getItem k (localStorage (browser w')) = getItem k (localStorage (browser w)).
Proof.
  intros Hne Hst. exists (saved d env items w).
  split; [by apply saveRecording_saved|].
  open_world w. unfold getItem, setItem. split.
  - apply lookup_insert_eq.
  - intros k Hk. by apply lookup_insert_ne.
Qed.

Lemma saveRecording_appends_one_record_witness :
  exists w',
    saveRecording 7 example_env recorded_world = Normal tt w' /\
    getItem "streamRecordings" (localStorage (browser w')) =
      Some (JArr ([recording_record "demo" 0 example_env] ++
                  [recording_record "demo" 7 example_env])) /\
    forall k, k <> "streamRecordings" ->
      getItem k (localStorage (browser w')) =
      getItem k (localStorage (browser recorded_world)).
Proof.
  apply (saveRecording_appends_one_record 7 example_env recorded_world
           [recording_record "demo" 0 example_env]);
    [discriminate | reflexivity].
Defined.

End BroadcasterFacts.

(** ** Searching and sorting *)

Section StringFacts.

Lemma startsWith_iff p : forall s,
  startsWith p s = true <-> exists post, s = p +:+ post.
Proof.
  induction p as [|a p IH]; intros s; simpl.
  - split; [intros _; by exists s | done].
  - destruct s as [|b s].
    + split; [done | intros [post H]; discriminate].
    + rewrite andb_true_iff, IH. split.
      * intros [Hab [post ->]]. apply Ascii.eqb_eq in Hab as ->. by exists post.
      * intros [post H]. injection H as -> ->. split; [apply Ascii.eqb_refl | by exists post].
Qed.

Lemma includes_iff t : forall s,
  includes s t = true <-> exists pre post, s = pre +:+ t +:+ post.
Proof.
  induction s as [|c s IH]; simpl; rewrite orb_true_iff, startsWith_iff.
  - split.
    + intros [[post H]|H]; [|discriminate]. by exists "", post.
    + intros (pre & post & H). left. destruct pre; [by exists post|discriminate].
  - rewrite IH. split.
    + intros [[post H]|(pre & post & ->)]; [by exists "", post|].
      by exists (String c pre), post.
    + intros (pre & post & H). destruct pre as [|c' pre]; simpl in H.
      * left. by exists post.
      * right. injection H as -> ->. by exists pre, post.
Qed.

Lemma map_chars_app f a b : map_chars f (a +:+ b) = map_chars f a +:+ map_chars f b.
Proof. induction a as [|c a IH]; simpl; [done | by rewrite IH]. Qed.

Lemma map_chars_split f : forall a s b,
  map_chars f s = a +:+ b ->
  exists s1 s2, s = s1 +:+ s2 /\ map_chars f s1 = a /\ map_chars f s2 = b.
Proof.
  induction a as [|c a IH]; intros s b H; simpl in H.
  - by exists "", s.
  - destruct s as [|c' s]; [discriminate|]. simpl in H. injection H as Hc H.
    destruct (IH _ _ H) as (s1 & s2 & -> & <- & <-).
    exists (String c' s1), s2. simpl. by rewrite Hc.
Qed.

Lemma N_of_ascii_inj a b : N_of_ascii a = N_of_ascii b -> a = b.
Proof.
  intros H. rewrite <- (ascii_N_embedding a), <- (ascii_N_embedding b).
  by rewrite H.
Qed.

Lemma N_of_lower c :
  N_of_ascii (lower c) =
  if GallerySpec.is_capital c then (N_of_ascii c + 32)%N else N_of_ascii c.
Proof.
  unfold lower, GallerySpec.is_capital.
  destruct ((65 <=? N_of_ascii c) && (N_of_ascii c <=? 90))%N eqn:E; [|done].
  apply andb_true_iff in E as [_ E]. apply N.leb_le in E.
  apply N_ascii_embedding. lia.
Qed.

Lemma capital_bounds c :
  GallerySpec.is_capital c = true <-> (65 <= N_of_ascii c <= 90)%N.
Proof.
  unfold GallerySpec.is_capital. rewrite andb_true_iff, !N.leb_le. tauto.
Qed.

(** Lower-casing identifies exactly the characters that differ in letter
    case only. *)
Lemma lower_eq_iff a b : lower a = lower b <-> GallerySpec.same_letter a b.
Proof.
  unfold GallerySpec.same_letter. split.
  - intros H. apply (f_equal N_of_ascii) in H. rewrite !N_of_lower in H.
    destruct (GallerySpec.is_capital a) eqn:Ea, (GallerySpec.is_capital b) eqn:Eb.
    + left. apply N_of_ascii_inj. lia.
    + right. left. split; [done | lia].
    + right. right. split; [done | lia].
    + left. by apply N_of_ascii_inj.
  - intros [->|[[Hc H]|[Hc H]]]; [done| |]; apply N_of_ascii_inj;
      rewrite !N_of_lower, Hc; apply capital_bounds in Hc.
    + destruct (GallerySpec.is_capital b) eqn:Eb; [|lia].
      apply capital_bounds in Eb. lia.
    + destruct (GallerySpec.is_capital a) eqn:Ea; [|lia].
      apply capital_bounds in Ea. lia.
Qed.

Lemma equal_ci_iff s : forall t,
  GallerySpec.equal_ci s t <-> map_chars lower s = map_chars lower t.
Proof.
  induction s as [|a s IH]; intros [|b t]; simpl; try (split; [done | discriminate]).
  - tauto.
  - rewrite IH, <- lower_eq_iff. split; [intros [-> ->]; reflexivity|].
    intros H. by injection H.
Qed.

Lemma includes_lower_iff s term :
  includes (map_chars lower s) (map_chars lower term) = true <->
  GallerySpec.contains_ci s term.
Proof.
  rewrite includes_iff. unfold GallerySpec.contains_ci. split.
  - intros (pre & post & H).
    destruct (map_chars_split _ _ _ _ H) as (s1 & s23 & -> & <- & H23).
    destruct (map_chars_split _ _ _ _ H23) as (s2 & s3 & -> & H2 & <-).
    exists s1, s2, s3. by rewrite equal_ci_iff.
  - intros (pre & mid & post & -> & H). apply equal_ci_iff in H.
    exists (map_chars lower pre), (map_chars lower post).
    by rewrite !map_chars_app, H.
Qed.

End StringFacts.

Section SortFacts.
Context {A : Type} (compareFn : A -> A -> Z).

Lemma insert_sorted_perm x l : Permutation (insert_sorted compareFn x l) (x :: l).
Proof.
  induction l as [|y l IH]; simpl; [done|].
  destruct (0 <? compareFn x y); [|done].
  rewrite IH. apply perm_swap.
Qed.

Lemma sort_perm l : Permutation (sort compareFn l) l.
Proof.
  induction l as [|x l IH]; simpl; [done|].
  rewrite insert_sorted_perm. by constructor.
Qed.

(** Comparators that order by a key, largest first. *)
Context (key : A -> Z).
Hypothesis compare_key : forall a b, compareFn a b = key b - key a.

Lemma insert_sorted_descending x l :
  StronglySorted (fun a b => key b <= key a) l ->
  StronglySorted (fun a b => key b <= key a) (insert_sorted compareFn x l).
Proof.
  induction 1 as [|y l Hl IH Hy]; simpl.
  - repeat constructor.
  - rewrite compare_key. destruct (0 <? key y - key x) eqn:Hc.
    + apply Z.ltb_lt in Hc. constructor; [exact IH|].
      eapply Permutation_Forall; [symmetry; apply insert_sorted_perm|].
      constructor; [lia | exact Hy].
    + apply Z.ltb_ge in Hc. constructor; [by constructor|].
      constructor; [lia|].
      eapply Forall_impl; [exact Hy|]. simpl. intros; lia.
Qed.

Lemma sort_descending l :
  StronglySorted (fun a b => key b <= key a) (sort compareFn l).
Proof.
  induction l as [|x l IH]; simpl; [constructor | by apply insert_sorted_descending].
Qed.

Lemma insert_sorted_stable k x l :
  List.filter (fun a => key a =? k) (insert_sorted compareFn x l) =
  List.filter (fun a => key a =? k) (x :: l).
Proof.
  induction l as [|y l IH]; [done|].
  simpl insert_sorted. rewrite compare_key.
  destruct (0 <? key y - key x) eqn:Hc; [|done].
  apply Z.ltb_lt in Hc. simpl in *. rewrite IH.
  destruct (key x =? k) eqn:Hx; [|done].
  apply Z.eqb_eq in Hx.
  destruct (key y =? k) eqn:Hy; [|done].
  apply Z.eqb_eq in Hy. lia.
Qed.

Lemma sort_stable k l :
  List.filter (fun a => key a =? k) (sort compareFn l) =
  List.filter (fun a => key a =? k) l.
Proof.
  induction l as [|x l IH]; [done|].
  simpl sort. rewrite insert_sorted_stable. simpl. by rewrite IH.
Qed.
End SortFacts.


(** ** The gallery *)

Module GalleryFacts.
Import VideoGallery GallerySpec.

Example query_example :
  map id (filteredAndSortedVideos example_platform example_clock
            [clip1; clip2] "clip" sort_date filter_week) = ["a"].
Proof. reflexivity. Qed.

Example today_excludes_yesterday :
  map id (filteredAndSortedVideos example_platform example_clock
            [clip1; clip2; late_clip] "" sort_date filter_today) = ["a"].
Proof. reflexivity. Qed.

Example search_ignores_case :
  map id (filteredAndSortedVideos example_platform example_clock
            [clip1; clip2; late_clip] "LATE" sort_name filter_all) = ["c"] /\
  map id (filteredAndSortedVideos example_platform example_clock
            [clip1; clip2; late_clip] "s2" sort_name filter_all) = ["c"].
Proof. split; reflexivity. Qed.

Example duration_sort_example :
  map id (filteredAndSortedVideos example_platform example_clock
            [clip1; clip2; late_clip] "" sort_duration filter_all) = ["b"; "a"; "c"].
Proof. reflexivity. Qed.

Lemma option_Z_eqb_iff a b : option_Z_eqb a (Some b) = true <-> a = Some b.
Proof.
  destruct a as [x|]; simpl; [|split; discriminate].
  rewrite Z.eqb_eq. split; congruence.
Qed.

Lemma date_geb_iff d e : date_geb d e = true <-> exists t, d = Some t /\ e <= t.
Proof.
  destruct d as [t|]; simpl.
  - rewrite Z.leb_le. split; [intros H; by exists t | intros (t' & [= <-] & H); exact H].
  - split; [discriminate | intros (t' & H & _); discriminate].
Qed.

Lemma in_filter_from {A} (callback : nat -> A -> bool) (l : list A) : forall i x,
  In x (filter_from callback i l) <->
  exists j, l !! j = Some x /\ callback (i + j)%nat x = true.
Proof.
  induction l as [|y l IH]; intros i x; simpl.
  - split; [done | intros (j & H & _); by destruct j].
  - assert (Hrest : In x (filter_from callback (S i) l) <->
                    exists j, l !! j = Some x /\ callback (i + S j)%nat x = true).
    { rewrite IH. split; intros (j & Hj & Hc); exists j; split; auto;
        by replace (i + S j)%nat with (S i + j)%nat in * by lia. }
    assert (Hhead : forall j, (y :: l) !! j = Some x /\ callback (i + j)%nat x = true ->
                    (y = x /\ callback i x = true) \/
                    exists j', l !! j' = Some x /\ callback (i + S j')%nat x = true).
    { intros [|j'] [Hj Hc]; simpl in Hj.
      - left. rewrite Nat.add_0_r in Hc. split; congruence.
      - right. by exists j'. }
    destruct (callback i y) eqn:Hy; simpl; rewrite Hrest; split.
    + intros [->|(j & Hj & Hc)]; [exists 0%nat | exists (S j)]; simpl; auto.
      by rewrite Nat.add_0_r.
    + intros (j & H). destruct (Hhead j H) as [[-> _]|H']; auto.
    + intros (j & Hj & Hc). exists (S j). auto.
    + intros (j & H). destruct (Hhead j H) as [[-> Hc]|H']; [congruence | auto].
Qed.

Lemma filter_from_sublist {A} (callback : nat -> A -> bool) (l : list A) : forall i,
  sublist (filter_from callback i l) l.
Proof.
  induction l as [|y l IH]; intros i; simpl; [constructor|].
  destruct (callback i y); [apply sublist_skip | apply sublist_cons]; apply IH.
Qed.

(** The callback keeps an entry exactly when the lower-cased term occurs in
    one of the two lower-cased fields and the creation time is in the
    window. *)
Lemma keep_window P now term f v :
  keep P now term f v = true <->
  includes (toLowerCase P (filename v)) (toLowerCase P term) ||
  includes (toLowerCase P (streamId v)) (toLowerCase P term) = true /\
  in_time_window P now f (Date_parse P (timestamp v)).
Proof.
  unfold keep.
  destruct (includes _ _ || includes _ _); simpl.
  - assert (Hw : forall b : bool, forall Q : Prop, (b = true <-> Q) ->
               (b = true <-> true = true /\ Q)) by (intros; tauto).
    apply Hw. destruct f; simpl.
    + tauto.
    + unfold toDateString. destruct (Date_parse P (timestamp v)) as [t|]; simpl.
      * rewrite Z.eqb_eq. split; [intros H; by exists t | intros (t' & [= <-] & H); exact H].
      * split; [discriminate | intros (t' & H & _); discriminate].
    + rewrite date_geb_iff. unfold msPerDay.
      split; intros (t & Ht & H); exists t; (split; [exact Ht | lia]).
    + rewrite date_geb_iff. unfold msPerDay.
      split; intros (t & Ht & H); exists t; (split; [exact Ht | lia]).
  - split; [discriminate | intros [H _]; discriminate].
Qed.

Lemma keep_iff P now term f v :
  is_ascii term = true -> is_ascii (filename v) = true ->
  is_ascii (streamId v) = true ->
  keep P now term f v = true <-> passes_filter_stage P now term f v.
Proof.
  intros Ht Hf Hs. rewrite keep_window. unfold passes_filter_stage, toLowerCase.
  rewrite Ht, Hf, Hs, orb_true_iff, !includes_lower_iff. tauto.
Qed.

(** C6, as stated, on an entry whose file name is the Greek word
    alpha-sigma in capitals and the search term capital sigma.  The term
    occurs in the file name as it is written, so the entry passes the filter
    stage as the claim describes it.  The callback drops it: lower-cased,
    the file name ends in a final sigma and the term is a small sigma. *)
Lemma final_sigma_is_not_found :
  passes_filter_stage example_platform example_now Sigma filter_all greek_clip /\
  keep example_platform example_now Sigma filter_all greek_clip = false /\
  filteredAndSortedVideos example_platform example_clock [greek_clip] Sigma
                          sort_date filter_all = [].
Proof.
  split; [|split; reflexivity].
  split; [|exact I]. left. exists Alpha, Sigma, "".
  split; [reflexivity|]. simpl. repeat split; by left.
Qed.

(** C6, amended.  When the search term, the file name and the stream id
    are made of ASCII characters, an entry passes the callback of the filter
    stage exactly when the search term occurs, letter case ignored, in its
    filename or in its stream id (the empty term occurs everywhere), and its
    creation time is in the window of the time filter: the same local
    calendar day as now for today, not before now minus 7 days for week, not
    before now minus 30 days for month, no condition for all.  Such an entry
    is in the query result exactly when it is stored and passes, at the
    reading of the clock taken for it. *)
Theorem filter_stage_keeps_the_ascii_matches P clock vs term key f v :
  is_ascii term = true -> is_ascii (filename v) = true ->
  is_ascii (streamId v) = true ->
  (forall now, keep P now term f v = true <-> passes_filter_stage P now term f v) /\
  (In v (filteredAndSortedVideos P clock vs term key f) <->
   exists i, vs !! i = Some v /\ passes_filter_stage P (clock i) term f v).
Proof.
  intros Ht Hf Hs.
  split; [intros now; by apply keep_iff|].
  unfold filteredAndSortedVideos.
  transitivity (In v (filter_from (fun i => keep P (clock i) term f) 0 vs)).
  - split; apply Permutation_in; [|symmetry]; apply sort_perm.
  - rewrite in_filter_from.
    split; intros (i & Hi & Hk); exists i; (split; [exact Hi|]);
      by apply (keep_iff P (clock i) term f v Ht Hf Hs).
Qed.

Lemma filter_stage_keeps_the_ascii_matches_witness :
  In late_clip (filteredAndSortedVideos example_platform example_clock
                  [clip1; clip2; late_clip] "LATE" sort_name filter_week) <->
  exists i, [clip1; clip2; late_clip] !! i = Some late_clip /\
            passes_filter_stage example_platform (example_clock i) "LATE"
                                filter_week late_clip.
Proof.
  apply (filter_stage_keeps_the_ascii_matches example_platform example_clock
           [clip1; clip2; late_clip] "LATE" sort_name filter_week late_clip);
    reflexivity.
Defined.

(** C5, as stated, on two stored entries of equal duration with ids "b"
    and "a" in that order: the duration sort returns them as stored, "b"
    before "a", which is not the order by ascending id. *)
Lemma duration_ties_keep_stored_order :
  filteredAndSortedVideos example_platform example_clock [tie_b; tie_a] ""
                          sort_duration filter_all = [tie_b; tie_a] /\
  ~ Sorted duration_then_id
      (filteredAndSortedVideos example_platform example_clock [tie_b; tie_a] ""
                               sort_duration filter_all).
Proof.
  split; [reflexivity|].
  change (filteredAndSortedVideos _ _ _ _ _ _) with [tie_b; tie_a].
  intros H. inversion H as [|a l Hl Hhd]; subst.
  inversion Hhd as [|b l' Hab]; subst.
  destruct Hab as [Hlt | [_ Hid]]; [simpl in Hlt; lia | discriminate].
Qed.

(** C5, amended.  The result of a query sorted by duration never increases
    in duration along the sequence, holds exactly the entries that pass the
    filter stage, and lists entries of equal duration in the order in which
    they are stored. *)
Theorem duration_sort_is_descending_and_stable P clock vs term f :
  let kept := filter_from (fun i => keep P (clock i) term f) 0 vs in
  let result := filteredAndSortedVideos P clock vs term sort_duration f in
  StronglySorted (fun a b => duration b <= duration a) result /\
  sublist kept vs /\
  Permutation result kept /\
  forall d, List.filter (fun v => duration v =? d) result =
            List.filter (fun v => duration v =? d) kept.
Proof.
  simpl. unfold filteredAndSortedVideos. repeat split.
  - by apply sort_descending.
  - apply filter_from_sublist.
  - apply sort_perm.
  - intros d. by apply sort_stable.
Qed.

Lemma decode_encode v : decode_video (encode_video v) = Some v.
Proof. by destruct v. Qed.

Lemma decode_videos_encode vs : decode_videos (map encode_video vs) = Some vs.
Proof.
  induction vs as [|v vs IH]; [done|].
  cbn [map decode_videos]. by rewrite decode_encode, IH.
Qed.

Lemma without_absent videoId vs :
  (forall v, In v vs -> id v <> videoId) -> without videoId vs = vs.
Proof.
  induction vs as [|v vs IH]; intros H; [done|]. simpl.
  destruct (String.eqb_spec (id v) videoId) as [E|_]; simpl.
  - exfalso. apply (H v); [by left | exact E].
  - rewrite IH; [done|]. intros u Hu. apply H. by right.
Qed.

Lemma without_gone videoId vs v : In v (without videoId vs) -> id v <> videoId.
Proof.
  unfold without. rewrite filter_In. intros [_ H] E.
  apply negb_true_iff, String.eqb_neq in H. contradiction.
Qed.

Lemma without_twice videoId vs :
  without videoId (without videoId vs) = without videoId vs.
Proof.
  apply without_absent. intros v. apply without_gone.
Qed.

Lemma deleteVideo_savedVideos videoId st :
  savedVideos (deleteVideo videoId st) = without videoId (savedVideos st).
Proof.
  unfold deleteVideo. destruct st as [vs [sel|] term key f ls]; simpl; [|done].
  by destruct (String.eqb (id sel) videoId).
Qed.

Lemma deleteVideo_localStorage videoId st :
  localStorage (deleteVideo videoId st) =
  setItem "savedVideos" (JArr (map encode_video (without videoId (savedVideos st))))
          (localStorage st).
Proof.
  unfold deleteVideo. destruct st as [vs [sel|] term key f ls]; simpl; [|done].
  by destruct (String.eqb (id sel) videoId).
Qed.

Lemma deleteVideo_stored videoId st :
  stored_videos (localStorage (deleteVideo videoId st)) =
  Some (without videoId (savedVideos st)).
Proof.
  rewrite deleteVideo_localStorage. unfold stored_videos, getItem_or_empty, getItem, setItem.
  rewrite lookup_insert_eq. simpl. apply decode_videos_encode.
Qed.

(** C9.  After [deleteVideo videoId] the selected video, if there is one,
    has an id other than [videoId]. *)
Theorem deleteVideo_clears_selection videoId st :
  match selectedVideo (deleteVideo videoId st) with
  | Some v => id v <> videoId
  | None => True
  end.
Proof.
  unfold deleteVideo. destruct st as [vs [sel|] term key f ls]; simpl; [|done].
  destruct (String.eqb_spec (id sel) videoId); simpl; done.
Qed.

Lemma deleteVideo_twice videoId st :
  deleteVideo videoId (deleteVideo videoId st) = deleteVideo videoId st.
Proof.
  unfold deleteVideo. destruct st as [vs [sel|] term key f ls]; simpl.
  - destruct (String.eqb_spec (id sel) videoId) as [E|E]; simpl.
    + fold (without videoId vs). fold (without videoId (without videoId vs)).
      rewrite without_twice. unfold setItem. by rewrite insert_insert_eq.
    + apply String.eqb_neq in E. rewrite E.
      fold (without videoId vs). fold (without videoId (without videoId vs)).
      rewrite without_twice. unfold setItem. by rewrite insert_insert_eq.
  - fold (without videoId vs). fold (without videoId (without videoId vs)).
    rewrite without_twice. unfold setItem. by rewrite insert_insert_eq.
Qed.

(** C7.  After [deleteVideo videoId], reading the catalog back from the
    store gives the list the gallery holds, and no entry of it has the id
    [videoId].  When no stored entry has that id, the list is unchanged.
    Deleting the same id a second time changes nothing.  [deleteVideo] is a
    total function: no call of it fails. *)
Theorem deleteVideo_removes_the_id videoId st :
  let st' := deleteVideo videoId st in
  (exists listed,
     loadSavedVideos st' = Some (setSavedVideos listed st') /\
     listed = savedVideos st' /\
     forall v, In v listed -> id v <> videoId) /\
  ((forall v, In v (savedVideos st) -> id v <> videoId) ->
   savedVideos st' = savedVideos st /\
   stored_videos (localStorage st') = Some (savedVideos st)) /\
  deleteVideo videoId st' = st'.
Proof.
  simpl. split; [|split].
  - exists (without videoId (savedVideos st)).
    unfold loadSavedVideos. rewrite deleteVideo_stored, deleteVideo_savedVideos.
    repeat split. intros v. apply without_gone.
  - intros Habsent. rewrite deleteVideo_stored, deleteVideo_savedVideos.
    by rewrite without_absent.
  - apply deleteVideo_twice.
Qed.

Lemma deleteVideo_removes_the_id_witness :
  savedVideos (deleteVideo "zz" example_gallery) = [clip1; clip2] /\
  stored_videos (localStorage (deleteVideo "zz" example_gallery)) = Some [clip1; clip2] /\
  deleteVideo "b" (deleteVideo "b" example_gallery) = deleteVideo "b" example_gallery.
Proof.
  destruct (deleteVideo_removes_the_id "zz" example_gallery) as (_ & Habsent & _).
  destruct (deleteVideo_removes_the_id "b" example_gallery) as (_ & _ & Htwice).
  split; [|split].
  - apply Habsent. intros v [<-|[<-|[]]]; discriminate.
  - apply Habsent. intros v [<-|[<-|[]]]; discriminate.
  - exact Htwice.
Defined.

Example delete_selected_example :
  map id (savedVideos (deleteVideo "b" example_gallery)) = ["a"] /\
  selectedVideo (deleteVideo "b" example_gallery) = None /\
  selectedVideo (deleteVideo "a" example_gallery) = Some clip2.
Proof. repeat split. Qed.

End GalleryFacts.

(** ** From the recorder to the gallery *)

Module Pipeline.
Import Broadcaster RunSpec.

(** *** Nothing the recorder does reaches the key the gallery reads *)

Lemma keeps_view_ret {A} (a : A) : keeps_view (mret a).
Proof. intros w. reflexivity. Qed.

Lemma keeps_view_gets {A} (f : World -> A) : keeps_view (gets f).
Proof. intros w. reflexivity. Qed.

Lemma keeps_view_throw {A} e : keeps_view (throw e : M A).
Proof. intros w. reflexivity. Qed.

Lemma keeps_view_modify (f : World -> World) :
  (forall w, gallery_view (f w) = gallery_view w) -> keeps_view (modify f).
Proof. intros H w. apply H. Qed.

Lemma keeps_view_bind {A B} (c : M A) (f : A -> M B) :
  keeps_view c -> (forall a, keeps_view (f a)) -> keeps_view (c ≫= f).
Proof.
  intros Hc Hf w. unfold mbind, M_bind. specialize (Hc w).
  destruct (c w) as [a w1|e w1]; simpl in *; [|exact Hc].
  by rewrite Hf.
Qed.

Lemma keeps_view_try_catch (body : M unit) (handler : Exception -> M unit) :
  keeps_view body -> (forall e, keeps_view (handler e)) ->
  keeps_view (try_catch body handler).
Proof.
  intros Hb Hh w. unfold try_catch. specialize (Hb w).
  destruct (body w) as [a w1|e w1]; simpl in *; [exact Hb|].
  by rewrite Hh.
Qed.

(** Every step of the proofs below is one of the rules above, or a setter
    that does not touch [localStorage]. *)
Ltac keeps :=
  repeat first
    [ apply keeps_view_ret | apply keeps_view_gets | apply keeps_view_throw
    | apply keeps_view_bind; [|intros ?]
    | apply keeps_view_try_catch; [|intros ?]
    | apply keeps_view_modify; intros [? ? ? []]; reflexivity
    | match goal with
      | |- keeps_view (match ?x with _ => _ end) => destruct x
      | |- keeps_view (if ?b then _ else _) => destruct b
      end ].

Lemma saveRecording_keeps_view d env : keeps_view (saveRecording d env).
Proof.
  unfold saveRecording. keeps.
  apply keeps_view_modify. intros [sid h r [rs live next queue ls dl con]].
  unfold gallery_view, getItem, setItem. simpl. by apply lookup_insert_ne.
Qed.

Lemma startStreaming_keeps_view mimeTypeSupported :
  keeps_view (startStreaming mimeTypeSupported).
Proof.
  unfold startStreaming, new_MediaRecorder, MediaRecorder_start, recorder_state,
    set_recorder_state, setInterval, log.
  keeps.
Qed.

Lemma steps_keeps_view evs : keeps_view (steps evs).
Proof.
  induction evs as [|ev evs IH]; simpl; [apply keeps_view_ret|].
  apply keeps_view_bind; [|intros _; exact IH].
  unfold step, interval_fired, ondataavailable. destruct ev; keeps.
Qed.

Lemma stopStreaming_keeps_view inflight : keeps_view (stopStreaming inflight).
Proof.
  unfold stopStreaming, MediaRecorder_stop, recorder_state, set_recorder_state,
    clearInterval.
  keeps.
Qed.

Lemma run_tasks_keeps_view env ts : keeps_view (run_tasks env ts).
Proof.
  induction ts as [|t ts IH]; simpl; [apply keeps_view_ret|].
  apply keeps_view_bind; [|intros _; exact IH].
  unfold run_task. destruct t as [rid data|rid].
  - unfold ondataavailable, log. keeps.
  - apply keeps_view_try_catch; [|intros e; unfold log; keeps].
    unfold onstop. apply keeps_view_bind; [keeps|]. intros rs.
    destruct (rs !! rid); [apply saveRecording_keeps_view | keeps].
Qed.

(** Whatever the world, the events and the browser's answers, a run leaves
    the value under "savedVideos" as it was. *)
Lemma run_keeps_view mimeTypeSupported evs inflight env :
  keeps_view (run mimeTypeSupported evs inflight env).
Proof.
  unfold run.
  apply keeps_view_bind; [apply startStreaming_keeps_view | intros _].
  apply keeps_view_bind; [apply steps_keeps_view | intros _].
  apply keeps_view_bind; [apply stopStreaming_keeps_view | intros _].
  unfold drain.
  apply keeps_view_bind; [apply keeps_view_gets | intros ts].
  apply keeps_view_bind; [keeps | intros _].
  apply run_tasks_keeps_view.
Qed.

(** C1, at the run of the example over an empty store.  The run stores one
    record under the key "streamRecordings", with the properties id,
    streamId, filename, date, duration and url; it has no property timestamp
    and does not read as a [SavedVideo].  The gallery, which reads the key
    "savedVideos", lists nothing. *)
Theorem recording_is_not_listed_by_gallery :
  exists w' rec,
    run true three_seconds [x04] example_env ready = Normal tt w' /\
    getItem "streamRecordings" (localStorage (browser w')) = Some (JArr [rec]) /\
    prop_names rec = ["id"; "streamId"; "filename"; "date"; "duration"; "url"] /\
    get_prop "timestamp" rec = None /\
    VideoGallery.decode_video rec = None /\
    getItem "savedVideos" (localStorage (browser w')) = None /\
    VideoGallery.savedVideos
      <$> VideoGallery.loadSavedVideos
            (VideoGallery.mounted (localStorage (browser w'))) = Some [].
Proof.
  eexists _, _. split; [vm_compute; reflexivity|]. vm_compute. auto 8.
Qed.

End Pipeline.

(** * Further properties *)

(** ** Decimal text and the duration display *)

Section DurationText.

Lemma length_append a b :
  String.length (a +:+ b) = (String.length a + String.length b)%nat.
Proof. induction a as [|c a IH]; simpl; [done | by rewrite IH]. Qed.

Lemma string_app_inj_tail a : forall b x y,
  String.length x = String.length y -> a +:+ x = b +:+ y -> a = b /\ x = y.
Proof.
  induction a as [|c a IH]; intros b x y Hlen H.
  - destruct b as [|c' b]; [done|].
    apply (f_equal String.length) in H. simpl in H.
    rewrite !length_append in H. simpl in H. lia.
  - destruct b as [|c' b].
    + apply (f_equal String.length) in H. simpl in H.
      rewrite !length_append in H. simpl in H. lia.
    + simpl in H. injection H as -> H. destruct (IH b x y Hlen H) as [-> ->]. done.
Qed.

Lemma clock_text_inj m1 s1 m2 s2 :
  String.length s1 = String.length s2 ->
  m1 +:+ ":" +:+ s1 = m2 +:+ ":" +:+ s2 -> m1 = m2 /\ s1 = s2.
Proof.
  intros Hl H. apply string_app_inj_tail in H.
  - destruct H as [-> H]. by injection H.
  - rewrite !length_append. simpl. by rewrite Hl.
Qed.

Lemma fill_zeros k cur :
  (cur = "" \/ cur = "0") -> exists j, fill k "0" cur = zeros j.
Proof.
  revert cur. induction k as [|k IH]; intros cur Hcur; [by exists O|].
  destruct Hcur as [-> | ->]; simpl;
    destruct (IH "" (or_introl eq_refl)) as [j ->]; by exists (S j).
Qed.

(** The text of a non-negative integer is the digit string of its decimal
    expansion. *)
Lemma digits_of_nonneg n :
  0 <= n -> exists d, d <> Decimal.Nil /\ toString n = NilEmpty.string_of_uint d /\
                      Z.of_uint d = n.
Proof.
  intros Hn. unfold toString. destruct n as [|p|p]; [| |lia].
  - exists Decimal.zero. repeat split; discriminate.
  - exists (Pos.to_uint p). split; [apply DecimalPos.Unsigned.to_uint_nonnil|].
    split.
    + simpl. unfold NilZero.string_of_uint.
      destruct (Pos.to_uint p) eqn:E; try reflexivity.
      by destruct (DecimalPos.Unsigned.to_uint_nonnil p).
    + unfold Z.of_uint. rewrite DecimalPos.Unsigned.of_to. reflexivity.
Qed.

Lemma uint_of_zeros k d :
  NilEmpty.uint_of_string (zeros k +:+ NilEmpty.string_of_uint d) =
  Some (Nat.iter k Decimal.D0 d).
Proof.
  induction k as [|k IH]; simpl; [apply NilEmpty.usu|].
  by rewrite IH.
Qed.

Lemma of_uint_zeros k d : Z.of_uint (Nat.iter k Decimal.D0 d) = Z.of_uint d.
Proof. induction k as [|k IH]; [done|]. simpl. exact IH. Qed.

(** Leading zeros do not change the value. *)
Lemma numeral_value_zeros k d :
  d <> Decimal.Nil ->
  numeral_value (zeros k +:+ NilEmpty.string_of_uint d) = Some (Z.of_uint d).
Proof.
  intros Hd. unfold numeral_value, NilZero.int_of_string.
  destruct (zeros k +:+ NilEmpty.string_of_uint d) as [|c rest] eqn:E.
  - destruct k; [|discriminate]. destruct d; try discriminate. contradiction.
  - assert (Hc : Ascii.eqb c "-" = false).
    { destruct k; simpl in E; [|by injection E as <- _].
      destruct d; try contradiction; by injection E as <- _. }
    rewrite Hc. unfold NilZero.uint_of_string. rewrite <- E, uint_of_zeros.
    simpl. by rewrite of_uint_zeros.
Qed.

Lemma numeral_value_padStart n :
  0 <= n -> numeral_value (padStart 2 "0" (toString n)) = Some n.
Proof.
  intros Hn. destruct (digits_of_nonneg n Hn) as (d & Hd & -> & <-).
  unfold padStart.
  destruct (fill_zeros (2 - String.length (NilEmpty.string_of_uint d)) "0"
              (or_intror eq_refl)) as [j ->].
  by apply numeral_value_zeros.
Qed.

Lemma numeral_value_toString n : 0 <= n -> numeral_value (toString n) = Some n.
Proof.
  intros Hn. destruct (digits_of_nonneg n Hn) as (d & Hd & -> & <-).
  by apply (numeral_value_zeros O).
Qed.

Lemma seconds_take_two_places r :
  0 <= r < 60 -> String.length (padStart 2 "0" (toString r)) = 2%nat.
Proof.
  intros Hr.
  assert (Hall : forallb (fun k => Nat.eqb (String.length
                    (padStart 2 "0" (toString (Z.of_nat k)))) 2) (seq 0 60) = true)
    by (vm_compute; reflexivity).
  rewrite forallb_forall in Hall.
  specialize (Hall (Z.to_nat r)). rewrite Z2Nat.id in Hall by lia.
  apply Nat.eqb_eq, Hall, in_seq. lia.
Qed.

Lemma seconds_of_parts a b :
  0 <= a -> 0 <= b -> a / 60 = b / 60 -> Z.rem a 60 = Z.rem b 60 -> a = b.
Proof.
  intros Ha Hb Hq Hr.
  pose proof (Z.quot_rem' a 60) as Ea. pose proof (Z.quot_rem' b 60) as Eb.
  rewrite Z.quot_div_nonneg in Ea, Eb by lia. lia.
Qed.

Lemma count_char_app c a b :
  count_char c (a +:+ b) = (count_char c a + count_char c b)%nat.
Proof. induction a as [|x a IH]; simpl; [done | rewrite IH; lia]. Qed.

End DurationText.

Example formatDuration_examples :
  BroadcasterUI.formatDuration 0 = "00:00" /\
  BroadcasterUI.formatDuration 75 = "01:15" /\
  BroadcasterUI.formatDuration 6000 = "100:00" /\
  GalleryUI.formatDuration 75 = "1:15" /\
  GalleryUI.formatDuration 605 = "10:05".
Proof. repeat split. Qed.

(** X1.  The duration display of the Broadcaster (and of the Viewer, which
    has the same function) shows different texts for different whole numbers
    of seconds from 0 on. *)
Theorem broadcaster_formatDuration_tells_durations_apart a b :
  0 <= a -> 0 <= b -> a <> b ->
  BroadcasterUI.formatDuration a <> BroadcasterUI.formatDuration b.
Proof.
  intros Ha Hb Hab H. apply Hab.
  assert (Hra : 0 <= Z.rem a 60 < 60) by (apply Z.rem_bound_pos; lia).
  assert (Hrb : 0 <= Z.rem b 60 < 60) by (apply Z.rem_bound_pos; lia).
  apply clock_text_inj in H as [Hm Hs];
    [|by rewrite !seconds_take_two_places].
  apply (f_equal numeral_value) in Hm, Hs.
  rewrite !numeral_value_padStart in Hm, Hs by (try lia; apply Z.div_pos; lia).
  apply seconds_of_parts; congruence.
Qed.

Lemma broadcaster_formatDuration_tells_durations_apart_witness :
  BroadcasterUI.formatDuration 59 <> BroadcasterUI.formatDuration 60.
Proof.
  apply (broadcaster_formatDuration_tells_durations_apart 59 60); lia.
Defined.

(** X2.  The duration display of the gallery, whose minutes are not padded,
    also shows different texts for different whole numbers of seconds from
    0 on. *)
Theorem gallery_formatDuration_tells_durations_apart a b :
  0 <= a -> 0 <= b -> a <> b ->
  GalleryUI.formatDuration a <> GalleryUI.formatDuration b.
Proof.
  intros Ha Hb Hab H. apply Hab.
  assert (Hra : 0 <= Z.rem a 60 < 60) by (apply Z.rem_bound_pos; lia).
  assert (Hrb : 0 <= Z.rem b 60 < 60) by (apply Z.rem_bound_pos; lia).
  apply clock_text_inj in H as [Hm Hs];
    [|by rewrite !seconds_take_two_places].
  apply (f_equal numeral_value) in Hm, Hs.
  rewrite !numeral_value_toString in Hm by (apply Z.div_pos; lia).
  rewrite !numeral_value_padStart in Hs by lia.
  apply seconds_of_parts; congruence.
Qed.

Lemma gallery_formatDuration_tells_durations_apart_witness :
  GalleryUI.formatDuration 600 <> GalleryUI.formatDuration 60.
Proof.
  apply (gallery_formatDuration_tells_durations_apart 600 60); lia.
Defined.

(** ** More on the Broadcaster *)

Module BroadcasterMore.
Import Broadcaster RunSpec BroadcasterFacts BroadcasterUI.

(** *** The track buttons *)

Lemma flip_first_twice k : forall s e s',
  flip_first k s = Some (e, s') ->
  flip_first k s' = Some (negb e, s).
Proof.
  induction s as [|t s IH]; intros e s' H; simpl in H; [discriminate|].
  destruct (String.eqb (kind t) k) eqn:Hk.
  - injection H as <- <-. simpl. rewrite Hk, negb_involutive. by destruct t.
  - destruct (flip_first k s) as [[e0 s0]|] eqn:Hf; [|discriminate].
    injection H as <- <-. simpl. rewrite Hk, (IH _ _ eq_refl). reflexivity.
Qed.

Lemma flip_first_keeps_tracks k : forall s e s',
  flip_first k s = Some (e, s') ->
  map kind s' = map kind s /\ map readyState s' = map readyState s.
Proof.
  induction s as [|t s IH]; intros e s' H; simpl in H; [discriminate|].
  destruct (String.eqb (kind t) k) eqn:Hk.
  - injection H as <- <-. by destruct t.
  - destruct (flip_first k s) as [[e0 s0]|] eqn:Hf; [|discriminate].
    injection H as <- <-. destruct (IH _ _ eq_refl) as (Hkd & Hr).
    simpl. by rewrite Hkd, Hr.
Qed.

Lemma same_but_enabled_refl w : same_but_enabled w w.
Proof.
  unfold same_but_enabled. repeat split. by destruct (streamRef (refs w)).
Qed.

(** X3.  [toggleVideo] and [toggleAudio] return in every world and change
    nothing but [enabled] flags of tracks: no track is added, removed or
    ended, and the recorder, the chunks, the timers, the store and the
    streaming state are as before. *)
Theorem toggles_touch_only_enabled c w :
  (exists c1 w1, toggleVideo c w = Normal c1 w1 /\ same_but_enabled w w1) /\
  (exists c1 w1, toggleAudio c w = Normal c1 w1 /\ same_but_enabled w w1).
Proof.
  split.
  - unfold toggleVideo. unfold_monad.
    destruct (streamRef (refs w)) as [s|] eqn:Hs;
      [|eexists _, _; split; [reflexivity | apply same_but_enabled_refl]].
    destruct (flip_first "video" s) as [[e s']|] eqn:Hf;
      [|eexists _, _; split; [reflexivity | apply same_but_enabled_refl]].
    eexists _, _. split; [reflexivity|].
    destruct (flip_first_keeps_tracks _ _ _ _ Hf) as (Hk & Hr).
    open_world w. subst stream. unfold same_but_enabled. simpl. done.
  - unfold toggleAudio. unfold_monad.
    destruct (streamRef (refs w)) as [s|] eqn:Hs;
      [|eexists _, _; split; [reflexivity | apply same_but_enabled_refl]].
    destruct (flip_first "audio" s) as [[e s']|] eqn:Hf;
      [|eexists _, _; split; [reflexivity | apply same_but_enabled_refl]].
    eexists _, _. split; [reflexivity|].
    destruct (flip_first_keeps_tracks _ _ _ _ Hf) as (Hk & Hr).
    open_world w. subst stream. unfold same_but_enabled. simpl. done.
Qed.

(** X4.  Pressing the camera button twice restores the world exactly, leaves
    the microphone flag alone, and leaves the camera flag equal to what the
    first video track's [enabled] was before (unchanged if there is no
    stream or no video track); the same holds for the microphone button
    with the roles exchanged. *)
Theorem toggle_twice_restores c w :
  (exists c2,
     (c1 ← toggleVideo c; toggleVideo c1) w = Normal c2 w /\
     isAudioEnabled c2 = isAudioEnabled c /\
     match streamRef (refs w) ≫= flip_first "video" with
     | Some (e, _) => isVideoEnabled c2 = negb e
     | None => c2 = c
     end) /\
  (exists c2,
     (c1 ← toggleAudio c; toggleAudio c1) w = Normal c2 w /\
     isVideoEnabled c2 = isVideoEnabled c /\
     match streamRef (refs w) ≫= flip_first "audio" with
     | Some (e, _) => isAudioEnabled c2 = negb e
     | None => c2 = c
     end).
Proof.
  split; open_world w; unfold toggleVideo, toggleAudio;
    unfold_monad; unfold_setters; simpl;
    (destruct stream as [s|]; simpl; [|by exists c]).
  - destruct (flip_first "video" s) as [[e s']|] eqn:Hf; simpl.
    + rewrite (flip_first_twice _ _ _ _ Hf). simpl. eexists. done.
    + rewrite Hf. by exists c.
  - destruct (flip_first "audio" s) as [[e s']|] eqn:Hf; simpl.
    + rewrite (flip_first_twice _ _ _ _ Hf). simpl. eexists. done.
    + rewrite Hf. by exists c.
Qed.

Example toggle_example :
  exists c1 w1,
    toggleVideo (mkControls true true) ready = Normal c1 w1 /\
    c1 = mkControls false true /\
    streamRef (refs w1) =
      Some [mkTrack "video" false live; mkTrack "audio" true live].
Proof. eexists _, _. repeat split. Qed.

(** *** Leaving the page *)

(** X5.  The cleanup that runs when the Broadcaster is unmounted does
    exactly what [stopStreaming] does, in every world: its own
    [clearInterval] finds the timer cleared already.  So a recording that is
    running when the user leaves is stopped, and saved, as by the stop
    button. *)
Theorem unmount_is_stopStreaming inflight w :
  unmount inflight w = stopStreaming inflight w.
Proof.
  open_world w.
  unfold unmount, stopStreaming, MediaRecorder_stop, recorder_state,
    set_recorder_state, clearInterval.
  unfold_monad. unfold_setters. simpl.
  destruct mr as [rid|]; simpl.
  - destruct (rs !! rid) as [[[] d]|] eqn:Hrec; simpl; rewrite ?Hrec; simpl;
      destruct iv as [tid|]; simpl; destruct stream as [s|]; simpl;
      rewrite ?clear_twice; reflexivity.
  - destruct iv as [tid|]; simpl; destruct stream as [s|]; simpl;
      rewrite ?clear_twice; reflexivity.
Qed.

(** *** Frames of the run *)

Lemma steps_frame evs : forall w,
  exists w',
    steps evs w = Normal tt w' /\
    streamId w' = streamId w /\ browser w' = browser w /\
    streamRef (refs w') = streamRef (refs w) /\
    mediaRecorderRef (refs w') = mediaRecorderRef (refs w) /\
    recordingIntervalRef (refs w') = recordingIntervalRef (refs w) /\
    isStreaming (hooks w') = isStreaming (hooks w) /\
    isRecording (hooks w') = isRecording (hooks w).
Proof.
  induction evs as [|ev evs IH]; intros w; [by exists w|].
  simpl. unfold mbind, M_bind.
  assert (Hstep : exists w1, step ev w = Normal tt w1 /\
            streamId w1 = streamId w /\ browser w1 = browser w /\
            streamRef (refs w1) = streamRef (refs w) /\
            mediaRecorderRef (refs w1) = mediaRecorderRef (refs w) /\
            recordingIntervalRef (refs w1) = recordingIntervalRef (refs w) /\
            isStreaming (hooks w1) = isStreaming (hooks w) /\
            isRecording (hooks w1) = isRecording (hooks w)).
  { destruct ev as [|data]; unfold step, interval_fired, ondataavailable;
      unfold_monad; unfold_setters.
    - destruct (recordingIntervalRef (refs w)) as [tid|] eqn:Hiv;
        [|eexists; split; [reflexivity | done]].
      destruct (decide (tid ∈ intervals (browser w)));
        [|eexists; split; [reflexivity | done]].
      eexists. split; [reflexivity|]. by open_world w.
    - destruct (0 <? size data); [|eexists; split; [reflexivity | done]].
      eexists. split; [reflexivity|]. by open_world w. }
  destruct Hstep as (w1 & -> & H1).
  destruct (IH w1) as (w2 & -> & H2). exists w2. split; [reflexivity|].
  destruct H1 as (? & ? & ? & ? & ? & ? & ?), H2 as (? & ? & ? & ? & ? & ? & ?).
  repeat split; congruence.
Qed.

Lemma try_save_frame d env w :
  let w' := world_of (try_catch (saveRecording d env) (fun e => log (uncaught e)) w) in
  streamId w' = streamId w /\ hooks w' = hooks w /\ refs w' = refs w /\
  recorders (browser w') = recorders (browser w) /\
  intervals (browser w') = intervals (browser w) /\
  timer_seq (browser w') = timer_seq (browser w) /\
  tasks (browser w') = tasks (browser w).
Proof.
  unfold saveRecording. unfold_monad.
  destruct (Nat.eqb (length (recordedChunksRef (refs w))) 0); [done|].
  open_world w. unfold_setters. simpl.
  destruct (getItem_or_empty _ ls); simpl; done.
Qed.

(** The sequence of a run, bind by bind. *)
Lemma run_phases mimeTypeSupported evs inflight env w :
  run mimeTypeSupported evs inflight env w =
  match startStreaming mimeTypeSupported w with
  | Normal _ w1 =>
      match steps evs w1 with
      | Normal _ w2 => (stopStreaming inflight;; drain env) w2
      | Throw e w2 => Throw e w2
      end
  | Throw e w1 => Throw e w1
  end.
Proof. reflexivity. Qed.

(** *** The duration timer *)

(** X6.  A run on an active stream clears the duration timer it started:
    after the run [recordingIntervalRef] still names that timer, the timer
    is not live, and a late firing of it changes nothing.  When every live
    timer was issued by [setInterval], the run clears no timer that was live
    before it. *)
Theorem run_clears_its_duration_timer w s evs inflight env :
  streamRef (refs w) = Some s -> active s = true -> tasks (browser w) = [] ->
  timers_issued w ->
  let w' := world_of (run true evs inflight env w) in
  recordingIntervalRef (refs w') = Some (timer_seq (browser w)) /\
  (timer_seq (browser w) ∉ intervals (browser w')) /\
  interval_fired (timer_seq (browser w)) w' = Normal tt w' /\
  (forall t, t ∈ intervals (browser w) -> t ∈ intervals (browser w')).
Proof.
  intros Hs Ha Hq Hissued. simpl.
  rewrite (run_unfold w s evs inflight env Hs Ha Hq).
  set (w2 := flushed _ _ _ _ _).
  destruct (try_save_frame (recordingDuration (hooks w)) env w2)
    as (_ & _ & Hr & _ & Hi & _).
  assert (Hi2 : intervals (browser w2) =
                ({[timer_seq (browser w)]} ∪ intervals (browser w)) ∖
                {[timer_seq (browser w)]})
    by (open_world w; reflexivity).
  assert (Hr2 : recordingIntervalRef (refs w2) = Some (timer_seq (browser w)))
    by (open_world w; reflexivity).
  clearbody w2.
  set (w3 := world_of _) in *. clearbody w3.
  assert (Hgone : timer_seq (browser w) ∉ intervals (browser w3)).
  { rewrite Hi, Hi2. intros [_ Hn]%elem_of_difference.
    apply Hn, elem_of_singleton. reflexivity. }
  split; [by rewrite Hr, Hr2|]. split; [exact Hgone|]. split.
  - unfold interval_fired. unfold_monad.
    by destruct (decide (timer_seq (browser w) ∈ intervals (browser w3))).
  - intros t Ht. rewrite Hi, Hi2.
    apply elem_of_difference. split; [apply elem_of_union; by right|].
    intros ->%elem_of_singleton. apply Hissued in Ht. lia.
Qed.

Lemma ready_timers_issued : timers_issued ready.
Proof. intros t Ht. apply elem_of_empty in Ht. contradiction. Qed.

Lemma run_clears_its_duration_timer_witness :
  let w' := world_of (run true three_seconds [x04] example_env ready) in
  recordingIntervalRef (refs w') = Some (timer_seq (browser ready)) /\
  (timer_seq (browser ready) ∉ intervals (browser w')) /\
  interval_fired (timer_seq (browser ready)) w' = Normal tt w' /\
  (forall t, t ∈ intervals (browser ready) -> t ∈ intervals (browser w')).
Proof.
  apply (run_clears_its_duration_timer ready camera three_seconds [x04] example_env);
    [reflexivity | reflexivity | reflexivity | exact ready_timers_issued].
Defined.

(** *** A released stream *)

Lemma startStreaming_refused w s :
  streamRef (refs w) = Some s -> active s = false ->
  startStreaming true w = Normal tt (refused w s).
Proof.
  intros Hs Ha. open_world w. subst stream.
  unfold startStreaming, new_MediaRecorder, MediaRecorder_start, recorder_state,
    set_recorder_state, setInterval, refused.
  unfold_monad. unfold_setters. simpl.
  rewrite list_lookup_middle by done. simpl. rewrite Ha. reflexivity.
Qed.

Lemma stopped_stream_inactive s : active (map stop_track s) = false.
Proof. induction s as [|t s IH]; [done|]. exact IH. Qed.

Lemma stopStreaming_streamRef inflight w s :
  streamRef (refs w) = Some s ->
  streamRef (refs (world_of (stopStreaming inflight w))) = Some (map stop_track s).
Proof.
  intros Hs. open_world w. subst stream.
  unfold stopStreaming, MediaRecorder_stop, recorder_state, set_recorder_state,
    clearInterval.
  unfold_monad. unfold_setters. simpl.
  destruct mr as [rid|]; simpl.
  - destruct (rs !! rid) as [[[] d]|] eqn:Hrec; simpl; rewrite ?Hrec; simpl;
      destruct iv; reflexivity.
  - destruct iv; reflexivity.
Qed.

(** X7.  [stopStreaming] ends the tracks and nothing acquires the camera
    again, so a [startStreaming] that follows it arms nothing: the recorder
    it constructs stays inactive, no timer is started and the failure is
    only logged; yet [isStreaming] and [isRecording] are set to true. *)
Theorem restart_after_stop_arms_nothing inflight w s :
  streamRef (refs w) = Some s ->
  let w1 := world_of (stopStreaming inflight w) in
  exists w2 rid r,
    startStreaming true w1 = Normal tt w2 /\
    isStreaming (hooks w2) = true /\ isRecording (hooks w2) = true /\
    mediaRecorderRef (refs w2) = Some rid /\
    recorders (browser w2) !! rid = Some r /\ state r = inactive /\
    intervals (browser w2) = intervals (browser w1) /\
    recordingIntervalRef (refs w2) = recordingIntervalRef (refs w1) /\
    console (browser w2) =
      console (browser w1) ++ [console_error "Error starting recording:" NotSupportedError].
Proof.
  intros Hs. simpl.
  pose proof (stopStreaming_streamRef inflight w s Hs) as Hs1.
  set (w1 := world_of _) in *. clearbody w1.
  rewrite (startStreaming_refused w1 _ Hs1 (stopped_stream_inactive s)).
  eexists _, (length (recorders (browser w1))), _.
  split; [reflexivity|]. simpl.
  split; [reflexivity|]. split; [reflexivity|]. split; [reflexivity|].
  split; [by apply list_lookup_middle|]. repeat split.
Qed.

Lemma restart_after_stop_arms_nothing_witness :
  let w1 := world_of (stopStreaming [] ready) in
  exists w2 rid r,
    startStreaming true w1 = Normal tt w2 /\
    isStreaming (hooks w2) = true /\ isRecording (hooks w2) = true /\
    mediaRecorderRef (refs w2) = Some rid /\
    recorders (browser w2) !! rid = Some r /\ state r = inactive /\
    intervals (browser w2) = intervals (browser w1) /\
    recordingIntervalRef (refs w2) = recordingIntervalRef (refs w1) /\
    console (browser w2) =
      console (browser w1) ++ [console_error "Error starting recording:" NotSupportedError].
Proof.
  apply (restart_after_stop_arms_nothing [] ready camera). reflexivity.
Defined.

(** X8.  A whole run attempted on a stream whose tracks have all ended
    stores nothing and hands nothing to the user, whatever events arrive;
    the only trace is the logged NotSupportedError. *)
Theorem run_on_released_stream_saves_nothing w s evs inflight env :
  streamRef (refs w) = Some s -> active s = false -> tasks (browser w) = [] ->
  exists w',
    run true evs inflight env w = Normal tt w' /\
    localStorage (browser w') = localStorage (browser w) /\
    downloads (browser w') = downloads (browser w) /\
    console (browser w') =
      console (browser w) ++ [console_error "Error starting recording:" NotSupportedError].
Proof.
  intros Hs Ha Hq. rewrite run_phases.
  rewrite (startStreaming_refused w s Hs Ha).
  destruct (steps_frame evs (refused w s)) as (w2 & -> & _ & Hb & Hst & Hmr & Hiv & _).
  assert (Hrec : recorders (browser w2) !! length (recorders (browser w)) =
                 Some (mkRecorder inactive (recordingDuration (hooks w)))).
  { rewrite Hb. simpl. by apply list_lookup_middle. }
  assert (Hq2 : tasks (browser w2) = []) by (rewrite Hb; exact Hq).
  assert (Hls : localStorage (browser w2) = localStorage (browser w)) by (by rewrite Hb).
  assert (Hdl : downloads (browser w2) = downloads (browser w)) by (by rewrite Hb).
  assert (Hcon : console (browser w2) = console (browser w) ++
            [console_error "Error starting recording:" NotSupportedError])
    by (by rewrite Hb).
  simpl in Hmr, Hst. clear Hb. revert Hrec Hq2 Hls Hdl Hcon Hmr Hst Hiv.
  generalize (length (recorders (browser w))) (localStorage (browser w))
    (downloads (browser w)) (console (browser w)) (recordingDuration (hooks w)).
  intros rid ls0 dl0 con0 d0. clear.
  open_world w2. intros Hrec -> -> -> -> -> -> _.
  unfold stopStreaming, drain, MediaRecorder_stop, recorder_state,
    set_recorder_state, clearInterval.
  unfold_monad. unfold_setters. simpl. rewrite Hrec. simpl.
  destruct iv; simpl; eexists; split; reflexivity || done.
Qed.

Lemma run_on_released_stream_saves_nothing_witness :
  exists w',
    run true three_seconds [x04] example_env recorded_world = Normal tt w' /\
    localStorage (browser w') = localStorage (browser recorded_world) /\
    downloads (browser w') = downloads (browser recorded_world) /\
    console (browser w') =
      console (browser recorded_world) ++
      [console_error "Error starting recording:" NotSupportedError].
Proof.
  apply (run_on_released_stream_saves_nothing recorded_world (map stop_track camera));
    reflexivity.
Defined.

(** *** A store that does not hold a collection *)

Lemma saveRecording_throws d env w :
  recordedChunksRef (refs w) <> [] ->
  is_array (getItem_or_empty "streamRecordings" (localStorage (browser w))) = false ->
  saveRecording d env w =
  Throw TypeError
    (set_downloads
       (downloads (browser w) ++
        [(recording_filename (streamId w) (replace_colon_dot (iso_for_filename env)),
          new_Blob (recordedChunksRef (refs w)))]) w).
Proof.
  intros Hne Hst. unfold saveRecording. unfold_monad.
  destruct (recordedChunksRef (refs w)) as [|c cs] eqn:Hc; [contradiction|].
  open_world w. unfold_setters. simpl in *. subst chunks.
  destruct (getItem_or_empty "streamRecordings" ls); try discriminate; reflexivity.
Qed.

(** X9.  When the value stored under "streamRecordings" is not an array, a
    run that collected chunks still hands the artifact to the user; the
    [push] then throws TypeError, which no handler catches: the store is
    left as it was, no record is written, and the run itself completes. *)
Theorem run_on_foreign_store w s evs inflight env :
  streamRef (refs w) = Some s -> active s = true -> tasks (browser w) = [] ->
  collected evs inflight <> [] ->
  is_array (getItem_or_empty "streamRecordings" (localStorage (browser w))) = false ->
  exists w',
    run true evs inflight env w = Normal tt w' /\
    localStorage (browser w') = localStorage (browser w) /\
    downloads (browser w') =
      downloads (browser w) ++
      [(recording_filename (streamId w) (replace_colon_dot (iso_for_filename env)),
        new_Blob (collected evs inflight))] /\
    console (browser w') = console (browser w) ++ [uncaught TypeError].
Proof.
  intros Hs Ha Hq Hne Hst.
  rewrite (run_unfold w s evs inflight env Hs Ha Hq). unfold try_catch.
  rewrite saveRecording_throws;
    [| rewrite flushed_chunks; exact Hne | open_world w; exact Hst].
  eexists. split; [reflexivity|].
  rewrite <- (flushed_chunks w s evs inflight
                (length (recorders (browser w))) (timer_seq (browser w))).
  open_world w. repeat split.
Qed.

Lemma run_on_foreign_store_witness :
  exists w',
    run true three_seconds [x04] example_env ready_over_foreign_store = Normal tt w' /\
    localStorage (browser w') = localStorage (browser ready_over_foreign_store) /\
    downloads (browser w') =
      downloads (browser ready_over_foreign_store) ++
      [(recording_filename "demo" (replace_colon_dot (iso_for_filename example_env)),
        new_Blob (collected three_seconds [x04]))] /\
    console (browser w') =
      console (browser ready_over_foreign_store) ++ [uncaught TypeError].
Proof.
  apply (run_on_foreign_store ready_over_foreign_store camera);
    [reflexivity | reflexivity | reflexivity | discriminate | reflexivity].
Defined.

(** *** The file name *)

Lemma count_colon_replaced s : count_char ":" (replace_colon_dot s) = O.
Proof.
  unfold replace_colon_dot. induction s as [|a s IH]; [done|].
  simpl. rewrite IH. unfold dash.
  destruct (Ascii.eqb a ":") eqn:E1; simpl; [done|].
  destruct (Ascii.eqb a ".") eqn:E2; simpl; [done|]. by rewrite E1.
Qed.

Lemma count_dot_replaced s : count_char "." (replace_colon_dot s) = O.
Proof.
  unfold replace_colon_dot. induction s as [|a s IH]; [done|].
  simpl. rewrite IH. unfold dash.
  destruct (Ascii.eqb a ":") eqn:E1; simpl; [done|].
  destruct (Ascii.eqb a ".") eqn:E2; simpl; [done|]. by rewrite E2.
Qed.

(** X10.  In the name of a recording the timestamp contributes no colon and
    no dot: the name has exactly the colons of the stream id, and one dot
    more than the stream id, the dot of the extension; the timestamp keeps
    its length. *)
Theorem recording_filename_punctuation sid iso :
  let name := recording_filename sid (replace_colon_dot iso) in
  count_char ":" name = count_char ":" sid /\
  count_char "." name = S (count_char "." sid) /\
  String.length (replace_colon_dot iso) = String.length iso.
Proof.
  simpl. unfold recording_filename.
  rewrite !count_char_app, count_colon_replaced, count_dot_replaced. simpl.
  repeat split; try lia.
  unfold replace_colon_dot. induction iso as [|a s IH]; simpl; congruence.
Qed.

(** X11.  In a run that saves, the artifact is handed to the user under the
    very file name that the stored record carries, and the record carries
    the stream id of the component, the object URL, [Date.now()] as id and
    the second reading of the clock as date. *)
Theorem run_download_matches_record w s evs inflight env items :
  streamRef (refs w) = Some s -> active s = true -> tasks (browser w) = [] ->
  collected evs inflight <> [] ->
  getItem_or_empty "streamRecordings" (localStorage (browser w)) = JArr items ->
  exists w' name rec,
    run true evs inflight env w = Normal tt w' /\
    downloads (browser w') =
      downloads (browser w) ++ [(name, new_Blob (collected evs inflight))] /\
    getItem "streamRecordings" (localStorage (browser w')) =
      Some (JArr (items ++ [rec])) /\
    get_prop "filename" rec = Some (JStr name) /\
    get_prop "streamId" rec = Some (JStr (streamId w)) /\
    get_prop "url" rec = Some (JStr (object_url env)) /\
    get_prop "id" rec = Some (JNum (Date_now env)) /\
    get_prop "date" rec = Some (JStr (iso_for_date env)).
Proof.
  intros Hs Ha Hq Hne Hst.
  rewrite (run_unfold w s evs inflight env Hs Ha Hq). unfold try_catch.
  rewrite (saveRecording_saved _ _ _ items);
    [| rewrite flushed_chunks; exact Hne | open_world w; exact Hst].
  eexists _, (recording_filename (streamId w) (replace_colon_dot (iso_for_filename env))),
    (recording_record (streamId w) (recordingDuration (hooks w)) env).
  split; [reflexivity|].
  rewrite <- (flushed_chunks w s evs inflight
                (length (recorders (browser w))) (timer_seq (browser w))).
  open_world w. unfold getItem, setItem. rewrite lookup_insert_eq.
  repeat split.
Qed.

Lemma run_download_matches_record_witness :
  exists w' name rec,
    run true three_seconds [x04] example_env ready = Normal tt w' /\
    downloads (browser w') =
      downloads (browser ready) ++ [(name, new_Blob (collected three_seconds [x04]))] /\
    getItem "streamRecordings" (localStorage (browser w')) =
      Some (JArr ([] ++ [rec])) /\
    get_prop "filename" rec = Some (JStr name) /\
    get_prop "streamId" rec = Some (JStr (streamId ready)) /\
    get_prop "url" rec = Some (JStr (object_url example_env)) /\
    get_prop "id" rec = Some (JNum (Date_now example_env)) /\
    get_prop "date" rec = Some (JStr (iso_for_date example_env)).
Proof.
  apply (run_download_matches_record ready camera three_seconds [x04] example_env []);
    [reflexivity | reflexivity | reflexivity | discriminate | reflexivity].
Defined.

(** *** No camera *)

(** X12.  When the camera is refused, the Broadcaster can do nothing: for
    every stream id, store, sequence of events and answer of the browser, a
    run returns with [isStreaming] and [isRecording] false, no recorder, no
    timer, the store and the downloads untouched, and on the console only
    the camera error and its alert. *)
Theorem camera_denied_run_does_nothing sid ls mimeTypeSupported evs inflight env :
  let w0 := world_of (startCamera None (mounted sid ls)) in
  exists w',
    run mimeTypeSupported evs inflight env w0 = Normal tt w' /\
    isStreaming (hooks w') = false /\ isRecording (hooks w') = false /\
    recorders (browser w') = [] /\ intervals (browser w') = ∅ /\
    localStorage (browser w') = ls /\ downloads (browser w') = [] /\
    console (browser w') =
      [console_error "Error accessing camera:" NotAllowedError;
       alert "Unable to access camera. Please check permissions."].
Proof.
  intros w0. rewrite run_phases.
  assert (Hstart : startStreaming mimeTypeSupported w0 = Normal tt w0) by reflexivity.
  rewrite Hstart.
  destruct (steps_frame evs w0) as (w2 & -> & _ & Hb & Hst & Hmr & Hiv & _).
  simpl in Hb, Hst, Hmr, Hiv. clearbody w0. clear Hstart.
  open_world w2. injection Hb as -> -> -> -> -> -> ->. subst.
  unfold stopStreaming, drain. unfold_monad. unfold_setters. simpl.
  eexists. split; [reflexivity|]. simpl. done.
Qed.

(** *** What no run does *)

Lemma keeps_key_ret k {A} (a : A) : keeps_key k (mret a).
Proof. intros w. reflexivity. Qed.

Lemma keeps_key_gets k {A} (f : World -> A) : keeps_key k (gets f).
Proof. intros w. reflexivity. Qed.

Lemma keeps_key_throw k {A} e : keeps_key k (throw e : M A).
Proof. intros w. reflexivity. Qed.

Lemma keeps_key_modify k (f : World -> World) :
  (forall w, getItem k (localStorage (browser (f w))) =
             getItem k (localStorage (browser w))) ->
  keeps_key k (modify f).
Proof. intros H w. apply H. Qed.

Lemma keeps_key_bind k {A B} (c : M A) (f : A -> M B) :
  keeps_key k c -> (forall a, keeps_key k (f a)) -> keeps_key k (c ≫= f).
Proof.
  intros Hc Hf w. unfold mbind, M_bind. specialize (Hc w).
  destruct (c w) as [a w1|e w1]; simpl in *; [|exact Hc].
  by rewrite Hf.
Qed.

Lemma keeps_key_try_catch k (body : M unit) (handler : Exception -> M unit) :
  keeps_key k body -> (forall e, keeps_key k (handler e)) ->
  keeps_key k (try_catch body handler).
Proof.
  intros Hb Hh w. unfold try_catch. specialize (Hb w).
  destruct (body w) as [a w1|e w1]; simpl in *; [exact Hb|].
  by rewrite Hh.
Qed.

Ltac keeps_key_steps :=
  repeat first
    [ apply keeps_key_ret | apply keeps_key_gets | apply keeps_key_throw
    | apply keeps_key_bind; [|intros ?]
    | apply keeps_key_try_catch; [|intros ?]
    | apply keeps_key_modify; intros [? ? ? []]; reflexivity
    | match goal with
      | |- keeps_key _ (match ?x with _ => _ end) => destruct x
      | |- keeps_key _ (if ?b then _ else _) => destruct b
      end ].

Lemma saveRecording_keeps_key k d env :
  k <> "streamRecordings" -> keeps_key k (saveRecording d env).
Proof.
  intros Hk. unfold saveRecording. keeps_key_steps.
  apply keeps_key_modify. intros [sid h r [rs live next queue ls dl con]].
  unfold getItem, setItem. simpl. by apply lookup_insert_ne.
Qed.

Lemma startStreaming_keeps_key k m : keeps_key k (startStreaming m).
Proof.
  unfold startStreaming, new_MediaRecorder, MediaRecorder_start, recorder_state,
    set_recorder_state, setInterval, log.
  keeps_key_steps.
Qed.

Lemma steps_keeps_key k evs : keeps_key k (steps evs).
Proof.
  intros w. destruct (steps_frame evs w) as (w' & -> & _ & Hb & _). simpl.
  by rewrite Hb.
Qed.

Lemma stopStreaming_keeps_key k inflight : keeps_key k (stopStreaming inflight).
Proof.
  unfold stopStreaming, MediaRecorder_stop, recorder_state, set_recorder_state,
    clearInterval.
  keeps_key_steps.
Qed.

Lemma run_tasks_keeps_key k env ts :
  k <> "streamRecordings" -> keeps_key k (run_tasks env ts).
Proof.
  intros Hk. induction ts as [|t ts IH]; simpl; [apply keeps_key_ret|].
  apply keeps_key_bind; [|intros _; exact IH].
  unfold run_task. destruct t as [rid data|rid].
  - unfold ondataavailable, log. keeps_key_steps.
  - apply keeps_key_try_catch; [|intros e; unfold log; keeps_key_steps].
    unfold onstop. apply keeps_key_bind; [keeps_key_steps|]. intros rs.
    destruct (rs !! rid); [by apply saveRecording_keeps_key | keeps_key_steps].
Qed.

(** X23.  The only key of the store a run ever writes is
    "streamRecordings": in every world, for every answer of the browser and
    every sequence of events, every other key has after the run the value it
    had before. *)
Theorem run_writes_one_key k mimeTypeSupported evs inflight env w :
  k <> "streamRecordings" ->
  getItem k (localStorage (browser (world_of (run mimeTypeSupported evs inflight env w)))) =
  getItem k (localStorage (browser w)).
Proof.
  intros Hk. revert w. change (keeps_key k (run mimeTypeSupported evs inflight env)).
  unfold run.
  apply keeps_key_bind; [apply startStreaming_keeps_key | intros _].
  apply keeps_key_bind; [apply steps_keeps_key | intros _].
  apply keeps_key_bind; [apply stopStreaming_keeps_key | intros _].
  unfold drain.
  apply keeps_key_bind; [apply keeps_key_gets | intros ts].
  apply keeps_key_bind; [keeps_key_steps | intros _].
  by apply run_tasks_keeps_key.
Qed.

Lemma run_writes_one_key_witness :
  getItem "savedVideos"
    (localStorage (browser (world_of (run true three_seconds [x04] example_env ready)))) =
  getItem "savedVideos" (localStorage (browser ready)).
Proof.
  apply (run_writes_one_key "savedVideos"). discriminate.
Defined.

End BroadcasterMore.

(** ** More on the gallery *)

Module GalleryMore.
Import VideoGallery GallerySpec GalleryFacts GalleryUI.

(** *** Sorting *)

Lemma insert_sorted_ext {A} (c1 c2 : A -> A -> Z) x l :
  (forall y, In y l -> c1 x y = c2 x y) ->
  insert_sorted c1 x l = insert_sorted c2 x l.
Proof.
  induction l as [|y l IH]; intros H; [done|]. simpl.
  rewrite (H y) by (by left). rewrite IH; [done|]. intros z Hz. apply H. by right.
Qed.

(** The sort looks at the comparator only on the elements of the list. *)
Lemma sort_ext {A} (c1 c2 : A -> A -> Z) l :
  (forall x y, In x l -> In y l -> c1 x y = c2 x y) ->
  sort c1 l = sort c2 l.
Proof.
  induction l as [|x l IH]; intros H; [done|]. simpl.
  rewrite IH by (intros; apply H; by right).
  apply insert_sorted_ext. intros y Hy. apply H; [by left|].
  right. eapply Permutation_in; [apply sort_perm | exact Hy].
Qed.

(** Every time filter but "all" drops the entries whose timestamp is not a
    date. *)
Lemma keep_dated P now term f v :
  f <> filter_all -> keep P now term f v = true ->
  is_Some (Date_parse P (timestamp v)).
Proof.
  intros Hf. unfold keep.
  destruct (negb _); [discriminate|].
  destruct f; [contradiction| | |]; unfold toDateString;
    destruct (Date_parse P (timestamp v)); simpl; eauto; discriminate.
Qed.

(** X13.  Sorted by date, the result lists the entries that pass the filter
    from the most recent to the oldest, entries of the same instant in
    stored order.  Under the filter "all" this needs every stored timestamp
    to be a date; the other filters drop the entries where it is not. *)
Theorem date_sort_is_newest_first P clock vs term f :
  (f = filter_all -> forall v, In v vs -> is_Some (Date_parse P (timestamp v))) ->
  let kept := filter_from (fun i => keep P (clock i) term f) 0 vs in
  let result := filteredAndSortedVideos P clock vs term sort_date f in
  StronglySorted (fun a b => time_of P b <= time_of P a) result /\
  Permutation result kept /\
  forall t, List.filter (fun v => time_of P v =? t) result =
            List.filter (fun v => time_of P v =? t) kept.
Proof.
  intros Hvalid kept result.
  assert (Hdated : forall v, In v kept -> is_Some (Date_parse P (timestamp v))).
  { intros v Hv. apply in_filter_from in Hv as (i & Hi & Hk).
    destruct f; try (eapply keep_dated; [|exact Hk]; discriminate).
    apply Hvalid; [done|]. apply list_elem_of_In. eapply list_elem_of_lookup_2, Hi. }
  assert (Hsort : result = sort (fun a b => time_of P b - time_of P a) kept).
  { unfold result, filteredAndSortedVideos. apply sort_ext. intros x y Hx Hy.
    destruct (Hdated x Hx) as [tx Ex], (Hdated y Hy) as [ty Ey].
    unfold compareVideos, time_diff, time_of. by rewrite Ex, Ey. }
  rewrite Hsort. split; [|split].
  - by apply sort_descending.
  - apply sort_perm.
  - intros t. by apply sort_stable.
Qed.

Lemma date_sort_is_newest_first_witness :
  let kept := filter_from (fun i => keep example_platform (example_clock i) "" filter_all) 0
                          [clip2; late_clip; clip1] in
  let result := filteredAndSortedVideos example_platform example_clock
                  [clip2; late_clip; clip1] "" sort_date filter_all in
  StronglySorted (fun a b => time_of example_platform b <= time_of example_platform a)
                 result /\
  Permutation result kept /\
  forall t, List.filter (fun v => time_of example_platform v =? t) result =
            List.filter (fun v => time_of example_platform v =? t) kept.
Proof.
  apply (date_sort_is_newest_first example_platform example_clock
           [clip2; late_clip; clip1] "" filter_all).
  intros _ v [<-|[<-|[<-|[]]]]; vm_compute; eauto.
Defined.

Example date_sort_example :
  map id (filteredAndSortedVideos example_platform example_clock
            [clip2; late_clip; clip1] "" sort_date filter_all) = ["a"; "c"; "b"].
Proof. reflexivity. Qed.

(** *** The filter settings *)

Lemma includes_empty s : includes s "" = true.
Proof. by destruct s. Qed.

Lemma filter_from_all {A} (callback : nat -> A -> bool) (l : list A) : forall i,
  (forall j x, callback j x = true) -> filter_from callback i l = l.
Proof.
  induction l as [|x l IH]; intros i H; [done|]. simpl. by rewrite H, IH.
Qed.

(** X14.  Sorting neither drops nor repeats an entry, whatever the sort
    key: the result is a rearrangement of the entries that pass the filter;
    and with the initial controls, an empty search and the filter "all",
    it is a rearrangement of the whole catalog. *)
Theorem sort_keeps_every_entry P clock vs term key f :
  Permutation (filteredAndSortedVideos P clock vs term key f)
              (filter_from (fun i => keep P (clock i) term f) 0 vs) /\
  Permutation (filteredAndSortedVideos P clock vs "" key filter_all) vs.
Proof.
  unfold filteredAndSortedVideos. split; [apply sort_perm|].
  rewrite sort_perm. rewrite filter_from_all; [done|].
  intros j x. unfold keep. change (toLowerCase P "") with "".
  by rewrite !includes_empty.
Qed.

Lemma in_query P clock vs term key f v :
  In v (filteredAndSortedVideos P clock vs term key f) <->
  exists i, vs !! i = Some v /\ keep P (clock i) term f v = true.
Proof.
  unfold filteredAndSortedVideos.
  rewrite <- (in_filter_from (fun i => keep P (clock i) term f) vs 0 v).
  split; apply Permutation_in; [|symmetry]; apply sort_perm.
Qed.

(** Two instants of one local calendar day are less than three days apart
    when local time is within a day of universal time. *)
Lemma same_day_close P t now :
  (forall x, Z.abs (LocalTime P x - x) <= msPerDay) ->
  Day P t = Day P now -> now - 7 * msPerDay <= t.
Proof.
  intros Hoff Hday. unfold Day in Hday.
  pose proof (Hoff t) as Ht. pose proof (Hoff now) as Hn.
  assert (Hpos : 0 < msPerDay) by (unfold msPerDay; lia).
  pose proof (Z.div_mod (LocalTime P t) msPerDay ltac:(lia)) as E1.
  pose proof (Z.div_mod (LocalTime P now) msPerDay ltac:(lia)) as E2.
  pose proof (Z.mod_pos_bound (LocalTime P t) msPerDay Hpos) as B1.
  pose proof (Z.mod_pos_bound (LocalTime P now) msPerDay Hpos) as B2.
  rewrite Hday in E1. lia.
Qed.

Lemma keep_nested P now term v :
  (forall x, Z.abs (LocalTime P x - x) <= msPerDay) ->
  (keep P now term filter_today v = true -> keep P now term filter_week v = true) /\
  (keep P now term filter_week v = true -> keep P now term filter_month v = true) /\
  (forall f, keep P now term f v = true -> keep P now term filter_all v = true) /\
  (forall f, keep P now term f v = true -> keep P now "" f v = true).
Proof.
  intros Hoff. repeat split.
  - rewrite !keep_window. intros [Hs (t & Ht & Hd)].
    split; [exact Hs|]. exists t. split; [exact Ht|]. by apply (same_day_close P).
  - rewrite !keep_window. intros [Hs (t & Ht & Hd)].
    split; [exact Hs|]. exists t. split; [exact Ht|]. unfold msPerDay in *. lia.
  - intros f. rewrite !keep_window. intros [Hs _]. done.
  - intros f. rewrite !keep_window. intros [_ Hw]. split; [|exact Hw].
    change (toLowerCase P "") with "". by rewrite !includes_empty.
Qed.

(** X15.  A narrower setting never shows more: on a platform whose local
    time is within a day of universal time, every entry shown under "today"
    is shown under "week", every entry under "week" under "month", every
    entry under any filter under "all", and every entry found by a search
    term is shown when the search field is empty. *)
Theorem narrower_filter_shows_less P clock vs term key v :
  (forall x, Z.abs (LocalTime P x - x) <= msPerDay) ->
  let shown t f := In v (filteredAndSortedVideos P clock vs t key f) in
  (shown term filter_today -> shown term filter_week) /\
  (shown term filter_week -> shown term filter_month) /\
  (forall f, shown term f -> shown term filter_all) /\
  (forall f, shown term f -> shown "" f).
Proof.
  intros Hoff shown. unfold shown. repeat split; [| |intros f|intros f];
    rewrite !in_query; intros (i & Hi & Hk); exists i; (split; [exact Hi|]);
    destruct (keep_nested P (clock i) term v Hoff) as (H1 & H2 & H3 & H4); eauto.
Qed.

Lemma example_platform_offset x :
  Z.abs (LocalTime example_platform x - x) <= msPerDay.
Proof. simpl. unfold msPerDay. lia. Qed.

Lemma narrower_filter_shows_less_witness :
  let shown t f :=
    In clip1 (filteredAndSortedVideos example_platform example_clock
                [clip1; clip2; late_clip] t sort_date f) in
  (shown "clip" filter_today -> shown "clip" filter_week) /\
  (shown "clip" filter_week -> shown "clip" filter_month) /\
  (forall f, shown "clip" f -> shown "clip" filter_all) /\
  (forall f, shown "clip" f -> shown "" f).
Proof.
  apply (narrower_filter_shows_less example_platform example_clock
           [clip1; clip2; late_clip] "clip" sort_date clip1).
  exact example_platform_offset.
Defined.

(** *** Deleting *)

Lemma without_sublist videoId vs : sublist (without videoId vs) vs.
Proof.
  induction vs as [|v vs IH]; simpl; [constructor|].
  destruct (negb _); by constructor.
Qed.

Lemma without_comm a b vs : without a (without b vs) = without b (without a vs).
Proof.
  induction vs as [|v vs IH]; [done|]. simpl.
  destruct (String.eqb (id v) a) eqn:Ea, (String.eqb (id v) b) eqn:Eb; simpl;
    rewrite ?Ea, ?Eb; simpl; congruence.
Qed.

Lemma state_eq (s1 s2 : State) :
  savedVideos s1 = savedVideos s2 -> selectedVideo s1 = selectedVideo s2 ->
  searchTerm s1 = searchTerm s2 -> sortBy s1 = sortBy s2 ->
  filterBy s1 = filterBy s2 -> localStorage s1 = localStorage s2 -> s1 = s2.
Proof. destruct s1, s2; simpl; congruence. Qed.

Lemma deleteVideo_selectedVideo videoId st :
  selectedVideo (deleteVideo videoId st) =
  match selectedVideo st with
  | Some v => if String.eqb (id v) videoId then None else Some v
  | None => None
  end.
Proof.
  unfold deleteVideo. destruct st as [vs [sel|] term key f ls]; simpl; [|done].
  by destruct (String.eqb (id sel) videoId).
Qed.

Lemma deleteVideo_controls videoId st :
  searchTerm (deleteVideo videoId st) = searchTerm st /\
  sortBy (deleteVideo videoId st) = sortBy st /\
  filterBy (deleteVideo videoId st) = filterBy st.
Proof.
  unfold deleteVideo. destruct st as [vs [sel|] term key f ls]; simpl; [|done].
  by destruct (String.eqb (id sel) videoId).
Qed.

(** X16.  [deleteVideo] touches nothing else: the entries with another id
    all stay, in their order; a selected video with another id stays
    selected; every key of the store other than "savedVideos" keeps its
    value; the search term, the sort key and the filter are as before. *)
Theorem deleteVideo_touches_nothing_else videoId st :
  let st' := deleteVideo videoId st in
  sublist (savedVideos st') (savedVideos st) /\
  (forall v, In v (savedVideos st) -> id v <> videoId -> In v (savedVideos st')) /\
  (forall v, selectedVideo st = Some v -> id v <> videoId -> selectedVideo st' = Some v) /\
  (forall k, k <> "savedVideos" ->
     getItem k (localStorage st') = getItem k (localStorage st)) /\
  searchTerm st' = searchTerm st /\ sortBy st' = sortBy st /\ filterBy st' = filterBy st.
Proof.
  simpl. rewrite deleteVideo_savedVideos, deleteVideo_localStorage.
  split; [apply without_sublist|]. split; [|split; [|split]].
  - intros v Hin Hne. unfold without. apply filter_In. split; [exact Hin|].
    by apply negb_true_iff, String.eqb_neq.
  - intros v Hsel Hne. rewrite deleteVideo_selectedVideo, Hsel.
    apply String.eqb_neq in Hne. by rewrite Hne.
  - intros k Hk. unfold getItem, setItem. by apply lookup_insert_ne.
  - apply deleteVideo_controls.
Qed.

(** X17.  Deletions commute: deleting two ids in either order leaves the
    same gallery state and the same store. *)
Theorem deleteVideo_commutes a b st :
  deleteVideo a (deleteVideo b st) = deleteVideo b (deleteVideo a st).
Proof.
  destruct (deleteVideo_controls a (deleteVideo b st)) as (T1 & K1 & F1).
  destruct (deleteVideo_controls b (deleteVideo a st)) as (T2 & K2 & F2).
  destruct (deleteVideo_controls a st) as (T3 & K3 & F3).
  destruct (deleteVideo_controls b st) as (T4 & K4 & F4).
  apply state_eq; try congruence.
  - rewrite !deleteVideo_savedVideos. apply without_comm.
  - rewrite !deleteVideo_selectedVideo.
    destruct (selectedVideo st) as [v|]; [|done].
    destruct (String.eqb (id v) b) eqn:Eb, (String.eqb (id v) a) eqn:Ea;
      rewrite ?Ea, ?Eb; reflexivity.
  - rewrite !deleteVideo_localStorage, !deleteVideo_savedVideos.
    unfold setItem. rewrite !insert_insert_eq. by rewrite without_comm.
Qed.

(** *** Reloading *)

Lemma deleteVideo_in_sync videoId st : in_sync (deleteVideo videoId st).
Proof.
  unfold in_sync. by rewrite deleteVideo_stored, deleteVideo_savedVideos.
Qed.

Lemma loadSavedVideos_in_sync st st' : loadSavedVideos st = Some st' -> in_sync st'.
Proof.
  unfold loadSavedVideos, in_sync.
  destruct (stored_videos (localStorage st)) as [vs|] eqn:E; [|discriminate].
  intros [= <-]. by destruct st.
Qed.

(** X18.  What the gallery shows survives a reload: once the catalog has
    been loaded, after any sequence of deletions the store holds exactly
    the list on screen, and a gallery mounted afresh over that store loads
    that list. *)
Theorem gallery_survives_reload st0 st1 ids :
  loadSavedVideos st0 = Some st1 ->
  let st := foldl (fun acc videoId => deleteVideo videoId acc) st1 ids in
  in_sync st /\
  savedVideos <$> loadSavedVideos (mounted (localStorage st)) = Some (savedVideos st).
Proof.
  intros Hload st.
  assert (Hsync : in_sync st).
  { unfold st. clear st. apply loadSavedVideos_in_sync in Hload. revert st1 Hload.
    induction ids as [|x ids IH]; intros st1 Hload; [exact Hload|].
    simpl. apply IH, deleteVideo_in_sync. }
  split; [exact Hsync|].
  unfold loadSavedVideos, mounted. simpl. unfold in_sync in Hsync. by rewrite Hsync.
Qed.

Lemma gallery_survives_reload_witness :
  let st := foldl (fun acc videoId => deleteVideo videoId acc)
                  (setSavedVideos [clip1; clip2] example_mounted) ["b"; "zz"] in
  in_sync st /\
  savedVideos <$> loadSavedVideos (mounted (localStorage st)) = Some (savedVideos st).
Proof.
  apply (gallery_survives_reload example_mounted). reflexivity.
Defined.

Example missing_key_loads_empty :
  savedVideos <$> loadSavedVideos (mounted ∅) = Some [].
Proof. reflexivity. Qed.

(** *** Titles *)

Lemma append_empty s : s +:+ "" = s.
Proof.
  induction s as [|c s IH]; [done|].
  change (String c s +:+ "") with (String c (s +:+ "")). by rewrite IH.
Qed.

Lemma replace_after_dotless base : forall rest,
  count_char "." base = O ->
  replace_first ".webm" "" (base +:+ rest) = base +:+ replace_first ".webm" "" rest.
Proof.
  induction base as [|a base IH]; intros rest Hdot; [done|].
  simpl in Hdot. destruct (Ascii.eqb a ".") eqn:Ea; [discriminate|].
  change (String a base +:+ rest) with (String a (base +:+ rest)).
  cbn [replace_first startsWith]. rewrite Ascii.eqb_sym, Ea. simpl.
  by rewrite IH.
Qed.

(** X19.  The title of a video is its file name without the extension: for
    a file name that is a dot-free base followed by ".webm" the title is the
    base, and a file name without a dot is shown as it is. *)
Theorem title_drops_the_extension v base :
  count_char "." base = O ->
  (filename v = base +:+ ".webm" -> title v = base) /\
  (filename v = base -> title v = base).
Proof.
  intros Hdot. unfold title. split; intros ->.
  - rewrite replace_after_dotless by exact Hdot.
    change (replace_first ".webm" "" ".webm") with "". apply append_empty.
  - rewrite <- (append_empty base) at 1. rewrite replace_after_dotless by exact Hdot.
    change (replace_first ".webm" "" "") with "". apply append_empty.
Qed.

Lemma title_drops_the_extension_witness :
  title webm_clip = "stream-abc-2024-05-01T09-00-00-000Z".
Proof.
  apply (proj1 (title_drops_the_extension webm_clip
                  "stream-abc-2024-05-01T09-00-00-000Z" eq_refl)).
  reflexivity.
Defined.

End GalleryMore.

(** ** The app *)

Module AppFacts.
Import App.

Example query_parsing_examples :
  Url.URLSearchParams "?streamId=abc123&mode=view" =
    [("streamId", "abc123"); ("mode", "view")] /\
  Url.URLSearchParams "a=1&&b&c=%41+%zz" = [("a", "1"); ("b", ""); ("c", "A %zz")] /\
  Url.URLSearchParams "" = [] /\
  mount_effect "?streamId=&mode=view" initial = initial /\
  mount_effect "?streamId=abc" initial = initial /\
  mount_effect "?streamId=a%20b&mode=view" initial = mkApp view "a b".
Proof. repeat split. Qed.

Lemma mount_effect_has_id search : has_id_when_viewing (mount_effect search initial).
Proof.
  unfold mount_effect, has_id_when_viewing.
  destruct (Url.get "streamId" _) as [id|]; [|discriminate].
  destruct (Url.get "mode" _) as [m|]; [|discriminate].
  destruct (is_empty id) eqn:Hid; simpl; [discriminate|].
  destruct (String.eqb m "view"); [|discriminate].
  intros _. simpl. by destruct id.
Qed.

Lemma handle_has_id st ev :
  has_id_when_viewing st -> has_id_when_viewing (handle st ev).
Proof.
  unfold has_id_when_viewing, handle. intros Hinv.
  destruct st as [m sid]. simpl in *.
  destruct m, ev; simpl; try discriminate; try exact Hinv.
  - unfold joinStream. simpl.
    destruct (is_empty (trim sid)) eqn:He; simpl; [discriminate|].
    intros _ ->. discriminate.
  - destruct (is_empty id) eqn:He; simpl; [discriminate|].
    intros _ ->. discriminate.
Qed.

(** X20.  The Viewer is never shown without a stream id: whatever the
    address the app was opened with and whatever the user and the scanner
    did since, when the mode is "view" the stream id is not empty. *)
Theorem viewer_always_has_a_stream_id search evs :
  mode (session search evs) = view -> streamId (session search evs) <> "".
Proof.
  unfold session.
  generalize (mount_effect_has_id search). generalize (mount_effect search initial).
  induction evs as [|ev evs IH]; intros st Hinv; [exact Hinv|].
  simpl. apply IH, handle_has_id, Hinv.
Qed.

Lemma viewer_always_has_a_stream_id_witness :
  streamId (session "" [type_stream_id " x1 "; click_join]) <> "".
Proof.
  apply (viewer_always_has_a_stream_id "" [type_stream_id " x1 "; click_join]).
  reflexivity.
Defined.

Example blank_id_does_not_join :
  session "" [type_stream_id "   "; click_join] = mkApp select "   " /\
  session "" [click_start_broadcast "k3j9x"; click_back] = initial.
Proof. split; reflexivity. Qed.

Lemma split_on_before sep a b :
  count_char sep a = O ->
  Url.split_on sep (a +:+ String sep b) = a :: Url.split_on sep b.
Proof.
  induction a as [|c a IH]; intros Hc.
  - change ("" +:+ String sep b) with (String sep b).
    cbn [Url.split_on]. by rewrite Ascii.eqb_refl.
  - simpl in Hc. destruct (Ascii.eqb c sep) eqn:E; [discriminate|].
    change (String c a +:+ String sep b) with (String c (a +:+ String sep b)).
    cbn [Url.split_on]. rewrite E, IH by exact Hc. reflexivity.
Qed.

Lemma plus_to_space_plain s : count_char "+" s = O -> Url.plus_to_space s = s.
Proof.
  unfold Url.plus_to_space. induction s as [|c s IH]; intros Hc; [done|].
  simpl in *. destruct (Ascii.eqb c "+"); [discriminate|]. by rewrite IH.
Qed.

Lemma percent_decode_plain s : count_char "%" s = O -> Url.percent_decode s = s.
Proof.
  induction s as [|c s IH]; intros Hc; [done|].
  simpl in Hc. destruct (Ascii.eqb_spec c "%") as [->|Hne]; [discriminate|].
  specialize (IH Hc).
  destruct c as [[] [] [] [] [] [] [] []]; simpl; by rewrite IH.
Qed.

Lemma alphanumeric_count sep s :
  is_alphanumeric sep = false -> all_alphanumeric s = true -> count_char sep s = O.
Proof.
  intros Hsep. induction s as [|c s IH]; intros Hs; [done|].
  simpl in *. apply andb_true_iff in Hs as [Hc Hs].
  destruct (Ascii.eqb_spec c sep) as [->|_]; [congruence | by apply IH].
Qed.

(** X21.  The link the Broadcaster shares opens the Viewer on the same
    stream: for a stream id that is not empty and is made of letters and
    digits, as the generated ids are, the app opened with the query of the
    viewer link is in mode "view" with exactly that stream id. *)
Theorem shared_link_opens_the_viewer sid :
  sid <> "" -> all_alphanumeric sid = true ->
  mount_effect (viewer_query sid) initial = mkApp view sid.
Proof.
  intros Hne Hsid.
  assert (Hamp : count_char "&" sid = O) by (by apply alphanumeric_count).
  assert (Hplus : count_char "+" sid = O) by (by apply alphanumeric_count).
  assert (Hpct : count_char "%" sid = O) by (by apply alphanumeric_count).
  unfold mount_effect, viewer_query, Url.URLSearchParams.
  change ("?streamId=" +:+ sid +:+ "&mode=view")
    with (String "?" (("streamId=" +:+ sid) +:+ String "&" "mode=view")).
  cbv iota beta.
  rewrite split_on_before by exact Hamp.
  cbv -[Url.plus_to_space Url.percent_decode]. fold (Url.plus_to_space sid).
  rewrite (plus_to_space_plain sid), (percent_decode_plain sid) by assumption.
  by destruct sid.
Qed.

Lemma shared_link_opens_the_viewer_witness :
  mount_effect (viewer_query "k3j9x0ab") initial = mkApp view "k3j9x0ab".
Proof.
  apply (shared_link_opens_the_viewer "k3j9x0ab"); [discriminate | reflexivity].
Defined.

Example viewerUrl_is_origin_and_query :
  BroadcasterUI.viewerUrl "https://app.example" "k3j9x0ab" =
  "https://app.example" +:+ viewer_query "k3j9x0ab".
Proof. reflexivity. Qed.

End AppFacts.
